(** * Semantic intent resolution and dispatch: a shallow embedding

    The development follows [api.py] (the resolver, the dispatcher, the
    session store and the startup rebuild of the similarity index),
    [code_generator.py], [function_registry.py] and the action module
    [automation_functions.py].

    Python objects are modelled as follows.
    - A dict with string keys is a [gmap string _].
    - A float is a [spec_float] (IEEE 754 binary64 without NaN payload);
      the comparison [a > b] is [SFltb b a], false as soon as one side is NaN.
    - A call either returns or raises: [result].  State that the code keeps
      in module globals ([session_memory], the Chroma collection) and the
      effects of a handler on the machine are passed explicitly.
    - The embedding model and the metric of the index are parameters.
    - The Chroma collection is a list of entries in insertion order; its
      operations follow the documented behaviour of the client and have no
      storage fault.
    - A handler has positional-or-keyword parameters only, as the functions
      of the action module have. *)

From Stdlib Require Import ZArith Floats.SpecFloat.
From stdpp Require Import gmap strings list fin_maps.

Local Open Scope string_scope.
Local Open Scope list_scope.

(** ** Values, truthiness, exceptions *)

#[warnings="-register-all"]
Inductive value : Type :=
| VNone
| VBool (b : bool)
| VInt (n : Z)
| VFloat (f : spec_float)
| VStr (s : string)
| VList (l : list value).

(** [bool(v)]: what [if v] and [v or w] test. *)
Definition truthy (v : value) : bool :=
  match v with
  | VNone => false
  | VBool b => b
  | VInt n => negb (n =? 0)%Z
  | VFloat (S754_zero _) => false
  | VFloat _ => true
  | VStr EmptyString => false
  | VStr _ => true
  | VList [] => false
  | VList _ => true
  end.

(** Exception classes.  [SystemExit] stands for the classes that derive from
    [BaseException] only ([SystemExit], [KeyboardInterrupt], [GeneratorExit]):
    an [except Exception] clause does not catch them. *)
Inductive exn_class : Type :=
| TypeError
| ValueError
| IndexError
| NameError
| OSError
| DuplicateIDError
| HTTPException (status_code : Z)
| OtherException
| SystemExit.

(** [exn_msg] is the text [str(e)] yields. *)
Record exn : Type := Exn { exn_cls : exn_class; exn_msg : string }.

Definition is_TypeError (e : exn) : bool :=
  match exn_cls e with TypeError => true | _ => false end.

Definition is_Exception (e : exn) : bool :=
  match exn_cls e with SystemExit => false | _ => true end.

Inductive result (A : Type) : Type :=
| Ret (a : A)
| Raise (e : exn).
Arguments Ret {A} a.
Arguments Raise {A} e.

Definition is_Ret {A} (r : result A) : bool :=
  match r with Ret _ => true | Raise _ => false end.

(** ** Handlers and the binding of keyword arguments *)

(** A parameter with its default value, if it has one. *)
Definition param : Type := string * option value.

(** A function of the action module: its docstring, its parameters
    (positional-or-keyword, as every function of [automation_functions.py])
    and its body, which reads the bound arguments, acts on the machine and
    returns or raises. *)
Record handler (World : Type) : Type := Handler {
  h_doc : option string;
  h_params : list param;
  h_body : gmap string value → World → result value * World
}.
Arguments Handler {World} h_doc h_params h_body.
Arguments h_doc {World} h.
Arguments h_params {World} h.
Arguments h_body {World} h.

(** Binding of a call with keyword arguments: a keyword that names no parameter, or a
    parameter with neither an argument nor a default, raises [TypeError]. *)
Fixpoint bind_params (sig : list param) (kwargs : gmap string value)
  : result (gmap string value) :=
  match sig with
  | [] => Ret ∅
  | (x, dflt) :: sig' =>
      match bind_params sig' kwargs with
      | Raise e => Raise e
      | Ret args =>
          match kwargs !! x, dflt with
          | Some v, _ => Ret (<[x := v]> args)
          | None, Some v => Ret (<[x := v]> args)
          | None, None =>
              Raise (Exn TypeError ("missing 1 required positional argument: " +:+ x))
          end
      end
  end.

Definition bind_arguments (sig : list param) (kwargs : gmap string value)
  : result (gmap string value) :=
  if bool_decide (dom kwargs ⊆ list_to_set (sig.*1))
  then bind_params sig kwargs
  else Raise (Exn TypeError "got an unexpected keyword argument").

Definition call {World} (f : handler World) (kwargs : gmap string value) (w : World)
  : result value * World :=
  match bind_arguments (h_params f) kwargs with
  | Raise e => (Raise e, w)
  | Ret args => h_body f args w
  end.

(** A parameter is required when it has no default. *)
Definition requires_parameter {World} (f : handler World) : Prop :=
  ∃ x, (x, None) ∈ h_params f.

(** ** code_generator.py *)

Definition nl : string := String (Ascii.ascii_of_nat 10) EmptyString.
Definition dq : string := String (Ascii.ascii_of_nat 34) EmptyString.

Definition generate_code (function_name : string) : string :=
  nl +:+ "from automation import " +:+ function_name +:+ nl
  +:+ nl
  +:+ "def main():" +:+ nl
  +:+ "    try:" +:+ nl
  +:+ "        result = " +:+ function_name +:+ "()" +:+ nl
  +:+ "        if result:" +:+ nl
  +:+ "            print(result)" +:+ nl
  +:+ "        else:" +:+ nl
  +:+ "            print(" +:+ dq +:+ function_name +:+ " executed successfully."
  +:+ dq +:+ ")" +:+ nl
  +:+ "    except Exception as e:" +:+ nl
  +:+ "        print(f" +:+ dq +:+ "Error executing function: {e}" +:+ dq +:+ ")" +:+ nl
  +:+ nl
  +:+ "if __name__ == " +:+ dq +:+ "__main__" +:+ dq +:+ ":" +:+ nl
  +:+ "    main()" +:+ nl
  +:+ "    ".

(** ** The dispatcher: [execute_function] *)

Section Dispatcher.
Context {World : Type}.
Variable ALLOWED_FUNCTIONS : gmap string (handler World).

(** [if params:] holds for a dict that is present and not empty. *)
Definition params_truthy (params : option (gmap string value)) : bool :=
  match params with
  | Some kw => negb (bool_decide (kw = ∅))
  | None => false
  end.

(** The call the dispatcher makes: with the keyword arguments when
    [params] is truthy, with no argument otherwise. *)
Definition invoke (f : handler World) (params : option (gmap string value)) (w : World)
  : result value * World :=
  match params with
  | Some kw => if params_truthy params then call f kw w else call f ∅ w
  | None => call f ∅ w
  end.

(** The body of the [try] block. *)
Definition execute_function_body
    (function_name : string) (params : option (gmap string value)) (w : World)
  : result value * World :=
  match ALLOWED_FUNCTIONS !! function_name with
  | None => (Raise (Exn ValueError "Unauthorized function access"), w)
  | Some f =>
      match invoke f params w with
      | (Ret r, w') => (Ret (if truthy r then r else VStr "Executed Successfully"), w')
      | (Raise e, w') => (Raise e, w')
      end
  end.

(** The [try] block under its two [except] clauses. *)
Definition execute_function
    (function_name : string) (params : option (gmap string value)) (w : World)
  : result value * World :=
  match execute_function_body function_name params w with
  | (Ret r, w') => (Ret r, w')
  | (Raise e, w') =>
      if is_TypeError e then
        (Ret (VStr ("Error: Function " +:+ function_name +:+ " requires parameters.")), w')
      else if is_Exception e then (Ret (VStr (exn_msg e)), w')
      else (Raise e, w')
  end.

End Dispatcher.

(** A registry whose handlers raise nothing outside [Exception]. *)
Definition handlers_catchable {World} (ALLOWED : gmap string (handler World)) : Prop :=
  ∀ name f args w e w',
    ALLOWED !! name = Some f → h_body f args w = (Raise e, w') → is_Exception e = true.

(** ** The session store *)

(** Lines 77 to 79 of [api.py]: [setdefault] then an append guarded by
    [prompt not in]. *)
Definition setdefault (session_id : string) (mem : gmap string (list string))
  : gmap string (list string) :=
  match mem !! session_id with
  | Some _ => mem
  | None => <[session_id := []]> mem
  end.

Definition record (session_id prompt : string) (mem : gmap string (list string))
  : gmap string (list string) :=
  let mem1 := setdefault session_id mem in
  if bool_decide (prompt ∈ mem1 !!! session_id) then mem1
  else <[session_id := (mem1 !!! session_id ++ [prompt])%list]> mem1.

(** [session_memory.get(session_id, [])]. *)
Definition history (session_id : string) (mem : gmap string (list string)) : list string :=
  default [] (mem !! session_id).

(** Every history of a store reached from the empty one is duplicate free. *)
Definition histories_nodup (mem : gmap string (list string)) : Prop :=
  ∀ sid h, mem !! sid = Some h → NoDup h.

(** How many times [prompt] stands in a history. *)
Definition occurrences (prompt : string) (h : list string) : nat :=
  length (filter (λ x, x = prompt) h).

(** ** The similarity index: an in-memory model of the Chroma collection *)

Definition SIMILARITY_THRESHOLD : spec_float :=
  S754_finite false 8106479329266893 (-54).

(** What [collection.query] returns: one inner list per query embedding. *)
Record QueryResult : Type := {
  ids : list (list string);
  distances : list (list spec_float)
}.

Section Index.
Context {Embedding : Type}.

Record entry : Type := Entry {
  entry_id : string;
  entry_embedding : Embedding;
  entry_metadata : option string
}.

(** The collection in insertion order.  The operations below never fault:
    the model has no storage failure. *)
Definition collection : Type := list entry.

(** [collection.get()["ids"]]. *)
Definition collection_get_ids (c : collection) : result (list string) :=
  Ret (entry_id <$> c).

(** [collection.delete(ids=...)]. *)
Definition collection_delete (del : list string) (c : collection) : result collection :=
  Ret (filter (λ e, entry_id e ∉ del) c).

(** [collection.add(ids=..., embeddings=..., metadatas=...)]: the three
    lists run in parallel; an empty batch is refused with [ValueError] (the
    text of the message depends on the version of the client), as is a batch
    of unequal lengths; a batch that repeats an id is refused; an id the
    collection already holds is skipped. *)
Fixpoint zip_entries (names : list string) (embs : list Embedding)
    (metas : list (option string)) : list entry :=
  match names, embs, metas with
  | n :: names', e :: embs', m :: metas' => Entry n e m :: zip_entries names' embs' metas'
  | _, _, _ => []
  end.

Definition collection_add (names : list string) (embs : list Embedding)
    (metas : list (option string)) (c : collection) : result collection :=
  if bool_decide (names = []) then
    Raise (Exn ValueError "Expected IDs to be a non-empty list, got 0 IDs")
  else if negb (bool_decide (length names = length embs ∧ length names = length metas)) then
    Raise (Exn ValueError "Unequal lengths for fields")
  else if negb (bool_decide (NoDup names)) then
    Raise (Exn DuplicateIDError "Expected IDs to be unique")
  else
    Ret (c ++ filter (λ e, entry_id e ∉ entry_id <$> c) (zip_entries names embs metas))%list.

Variable distance : Embedding → Embedding → spec_float.

(** The entry nearest to [q]; among entries at the same distance the one
    stored first.  The index of the client leaves such a tie open: no
    statement below depends on how it is broken. *)
Fixpoint nearest (c : collection) (q : Embedding) : option (string * spec_float) :=
  match c with
  | [] => None
  | e :: c' =>
      let d := distance q (entry_embedding e) in
      match nearest c' q with
      | Some (i, d') => if SFltb d' d then Some (i, d') else Some (entry_id e, d)
      | None => Some (entry_id e, d)
      end
  end.

(** [collection.query(query_embeddings=..., n_results=1, include=["distances"])]. *)
Definition collection_query (c : collection) (query_embeddings : list Embedding)
  : QueryResult :=
  {| ids := (λ q, from_option (λ r, [r.1]) [] (nearest c q)) <$> query_embeddings;
     distances := (λ q, from_option (λ r, [r.2]) [] (nearest c q)) <$> query_embeddings |}.

End Index.
Arguments entry Embedding : clear implicits.
Arguments collection Embedding : clear implicits.

(** ** The action module and the registry *)

(** A member of a module namespace: a function, or anything else (an
    imported module, a constant). *)
Inductive member (World : Type) : Type :=
| MFunction (f : handler World)
| MOther.
Arguments MFunction {World} f.
Arguments MOther {World}.

(** [inspect.getmembers(module, inspect.isfunction)] collected into a dict.
    The order of the keys is not kept: nothing below depends on it. *)
Definition get_available_functions {World} (module : gmap string (member World))
  : gmap string (handler World) :=
  omap (λ x, match x with MFunction f => Some f | MOther => None end) module.

(** ** Startup rebuild, resolver and endpoints of [api.py] *)

Record FunctionRequest : Type := {
  req_prompt : string;
  req_session_id : string;
  req_params : option (gmap string value)
}.

Record MultiFunctionRequest : Type := {
  req_prompts : list string;
  req_multi_session_id : string
}.

(** The dict [/execute] answers with. *)
Record ExecuteResponse : Type := {
  resp_function : string;
  resp_output : value;
  resp_code : string;
  resp_session_history : list string
}.

(** One element of [results] in the answer of [/execute_multiple]. *)
Record ResultEntry : Type := {
  function : option string;
  output : value;
  code : option string
}.

Record MultiResponse : Type := {
  session_history : list string;
  results : list ResultEntry
}.

(** The entry appended when [if function_name:] fails: the name is [None]
    (or empty). *)
Definition no_match_entry : ResultEntry :=
  {| function := None; output := VStr "No matching function found"; code := None |}.

Section Api.
Context {Embedding World : Type}.
Variable encode : string → Embedding.
Variable distance : Embedding → Embedding → spec_float.
Variable ALLOWED_FUNCTIONS : gmap string (handler World).

(** *** [clear_and_store_functions] *)

(** The [try] block: read the stored ids and delete them when there are
    any. *)
Definition delete_old_embeddings (c : collection Embedding)
  : result unit * collection Embedding :=
  match collection_get_ids c with
  | Raise e => (Raise e, c)
  | Ret existing_records =>
      if bool_decide (existing_records ≠ []) then
        match collection_delete existing_records c with
        | Raise e => (Raise e, c)
        | Ret c' => (Ret (), c')
        end
      else (Ret (), c)
  end.

(** Encode the function names and add them under these names. *)
Definition store_functions (function_names : list string) (c : collection Embedding)
  : result unit * collection Embedding :=
  let function_embeddings := encode <$> function_names in
  match collection_add function_names function_embeddings
          ((λ _, None) <$> function_names) c with
  | Raise e => (Raise e, c)
  | Ret c' => (Ret (), c')
  end.

(** The entry the rebuild makes for a name. *)
Definition fresh_entry (name : string) : entry Embedding :=
  Entry name (encode name) None.

Definition clear_and_store_functions (c : collection Embedding)
  : result unit * collection Embedding :=
  let function_names := (map_to_list ALLOWED_FUNCTIONS).*1 in
  match delete_old_embeddings c with
  | (Ret _, c1) => store_functions function_names c1
  | (Raise e, c1) =>
      (* except Exception: a warning is logged and the rebuild goes on *)
      if is_Exception e then store_functions function_names c1
      else (Raise e, c1)
  end.

(** *** [retrieve_best_function] *)

(** Lines 87 to 100: the decision taken on the answer of the query. *)
Definition select_match (results : QueryResult) : result (option string) :=
  match ids results with
  | [] => Ret None
  | [] :: _ => Ret None
  | (best_match_id :: _) :: _ =>
      match distances results with
      | (best_match_score :: _) :: _ =>
          if SFltb SIMILARITY_THRESHOLD best_match_score then Ret None
          else Ret (Some best_match_id)
      | _ => Raise (Exn IndexError "list index out of range")
      end
  end.

Variable the_collection : collection Embedding.

Definition retrieve_best_function (prompt session_id : string)
    (session_memory : gmap string (list string))
  : result (option string) * gmap string (list string) :=
  let embedding := encode prompt in
  let session_memory' := record session_id prompt session_memory in
  let results := collection_query distance the_collection [embedding] in
  (select_match results, session_memory').

(** What the resolver answers for a prompt; the session store plays no
    part in it. *)
Definition resolved (prompt : string) : result (option string) :=
  select_match (collection_query distance the_collection [encode prompt]).

(** The entry that belongs to a prompt: the no-match entry when the prompt
    resolves to no name (or to an empty one), an entry under the resolved
    name otherwise. *)
Definition entry_for (prompt : string) (r : ResultEntry) : Prop :=
  match resolved prompt with
  | Ret (Some (String a s)) =>
      function r = Some (String a s) ∧ code r = Some (generate_code (String a s))
  | Ret _ => r = no_match_entry
  | Raise _ => False
  end.

(** *** The endpoints *)

Record state : Type := State {
  session_memory : gmap string (list string);
  world : World
}.

Definition execute (request : FunctionRequest) (st : state)
  : result ExecuteResponse * state :=
  match retrieve_best_function (req_prompt request) (req_session_id request)
          (session_memory st) with
  | (Raise e, mem) => (Raise e, State mem (world st))
  | (Ret function_name, mem) =>
      match function_name with
      | Some (String a s as fn) =>
          match execute_function ALLOWED_FUNCTIONS fn (req_params request) (world st) with
          | (Raise e, w) => (Raise e, State mem w)
          | (Ret out, w) =>
              (Ret {| resp_function := fn;
                      resp_output := out;
                      resp_code := generate_code fn;
                      resp_session_history := history (req_session_id request) mem |},
               State mem w)
          end
      | _ => (Raise (Exn (HTTPException 404) "No matching function found"),
              State mem (world st))
      end
  end.

(** The body of the loop of [execute_multiple]: the entry appended for one
    prompt. *)
Definition resolve_and_execute (prompt session_id : string) (st : state)
  : result ResultEntry * state :=
  match retrieve_best_function prompt session_id (session_memory st) with
  | (Raise e, mem) => (Raise e, State mem (world st))
  | (Ret function_name, mem) =>
      match function_name with
      | Some (String a s as fn) =>
          match execute_function ALLOWED_FUNCTIONS fn None (world st) with
          | (Raise e, w) => (Raise e, State mem w)
          | (Ret out, w) =>
              (Ret {| function := Some fn; output := out; code := Some (generate_code fn) |},
               State mem w)
          end
      | _ => (Ret no_match_entry, State mem (world st))
      end
  end.

Fixpoint execute_multiple_loop (prompts : list string) (session_id : string)
    (acc : list ResultEntry) (st : state) : result (list ResultEntry) * state :=
  match prompts with
  | [] => (Ret acc, st)
  | prompt :: prompts' =>
      match resolve_and_execute prompt session_id st with
      | (Raise e, st') => (Raise e, st')
      | (Ret r, st') => execute_multiple_loop prompts' session_id (acc ++ [r])%list st'
      end
  end.

Definition execute_multiple (request : MultiFunctionRequest) (st : state)
  : result MultiResponse * state :=
  match execute_multiple_loop (req_prompts request) (req_multi_session_id request) [] st with
  | (Raise e, st') => (Raise e, st')
  | (Ret rs, st') =>
      (Ret {| session_history := history (req_multi_session_id request) (session_memory st');
              results := rs |}, st')
  end.

End Api.

(** ** function_registry.py *)

(** What a global name of the script is bound to. *)
Inductive pyobj (World : Type) : Type :=
| OModule (module : gmap string (member World))
| OOpaque.
Arguments OModule {World} module.
Arguments OOpaque {World}.

(** The globals of the script when line 19 is reached: the names its imports
    and assignments bind.  The action module is bound to the name
    [automation_functions]. *)
Definition registry_globals {World} (automation_functions : gmap string (member World))
  : gmap string (pyobj World) :=
  {[ "chromadb" := OOpaque;
     "inspect" := OOpaque;
     "automation_functions" := OModule automation_functions;
     "SentenceTransformer" := OOpaque;
     "embedding_model" := OOpaque;
     "chroma_client" := OOpaque;
     "collection" := OOpaque;
     "existing_ids" := OOpaque ]}.

(** [func.__doc__ or "No description available"]. *)
Definition description_of {World} (func : handler World) : string :=
  match h_doc func with
  | Some (String a s) => String a s
  | _ => "No description available"
  end.

(** The descriptor of an action in the words of the specification: its
    description when it has one, its name otherwise. *)
Definition descriptor {World} (name : string) (f : handler World) : string :=
  match h_doc f with
  | Some description => description
  | None => name
  end.

Section FunctionRegistry.
Context {Embedding World : Type}.
Variable encode : string → Embedding.

(** The dict comprehension of lines 19 to 22 over the object the name
    [automation] evaluates to; an object that is not a module is taken
    to have no function member. *)
Definition FUNCTIONS (automation : pyobj World) : gmap string string :=
  match automation with
  | OModule module => description_of <$> get_available_functions module
  | OOpaque => ∅
  end.

(** The entry the script makes for a name and its description. *)
Definition described_entry (item : string * string) : entry Embedding :=
  Entry item.1 (encode item.2) (Some item.2).

(** The loop of lines 25 to 31. *)
Fixpoint store_descriptions (items : list (string * string)) (c : collection Embedding)
  : result unit * collection Embedding :=
  match items with
  | [] => (Ret (), c)
  | (function_name, description) :: items' =>
      match collection_add [function_name] [encode description] [Some description] c with
      | Raise e => (Raise e, c)
      | Ret c' => store_descriptions items' c'
      end
  end.

Definition function_registry (globals : gmap string (pyobj World))
    (c : collection Embedding) : result unit * collection Embedding :=
  match collection_get_ids c with
  | Raise e => (Raise e, c)
  | Ret existing_ids =>
      match (if bool_decide (existing_ids ≠ []) then collection_delete existing_ids c
             else Ret c) with
      | Raise e => (Raise e, c)
      | Ret c1 =>
          match globals !! "automation" with
          | None => (Raise (Exn NameError "name 'automation' is not defined"), c1)
          | Some automation => store_descriptions (map_to_list (FUNCTIONS automation)) c1
          end
      end
  end.

End FunctionRegistry.

(** ** automation_functions.py *)

(** The part of the machine the six actions touch. *)
Record machine : Type := Machine {
  launched : list string;            (* what was opened or run, latest last *)
  cpu_percent : string;              (* the text of [psutil.cpu_percent()] *)
  ram_percent : string;              (* the text of [ram.percent] *)
  listdir : gmap string (list string) (* [os.listdir] of the directories that exist *)
}.

Definition launch (what : string) (w : machine) : machine :=
  Machine (launched w ++ [what])%list (cpu_percent w) (ram_percent w) (listdir w).

Definition open_chrome : handler machine :=
  Handler None [] (λ _ w, (Ret VNone, launch "webbrowser.open https://www.google.com" w)).

Definition open_calculator : handler machine :=
  Handler None [] (λ _ w, (Ret VNone, launch "os.system calc" w)).

Definition open_notepad : handler machine :=
  Handler None [] (λ _ w, (Ret VNone, launch "os.system notepad" w)).

Definition get_cpu_usage : handler machine :=
  Handler None [] (λ _ w, (Ret (VStr ("CPU Usage: " +:+ cpu_percent w +:+ "%")), w)).

Definition get_ram_usage : handler machine :=
  Handler None [] (λ _ w, (Ret (VStr ("RAM Usage: " +:+ ram_percent w +:+ "%")), w)).

(** [list_files(directory=".")]: the body catches every exception of
    [os.listdir] itself and returns its text.  The machine answers
    [os.listdir] for the directories it knows by name; an unknown name and an
    argument that is no text ([None], a file descriptor) get a fixed text
    here, where the text of the interpreter differs.  No statement below
    depends on these texts. *)
Definition list_files : handler machine :=
  Handler (Some "Lists files in the specified directory.")
    [("directory", Some (VStr "."))]
    (λ args w,
       match args !! "directory" with
       | Some (VStr directory) =>
           match listdir w !! directory with
           | Some files =>
               (Ret (VStr ("Files in '" +:+ directory +:+ "': " +:+ String.concat ", " files)), w)
           | None =>
               (Ret (VStr ("Error listing files: [Errno 2] No such file or directory: '"
                           +:+ directory +:+ "'")), w)
           end
       | _ => (Ret (VStr "Error listing files: invalid path"), w)
       end).

Definition automation_functions : gmap string (member machine) :=
  {[ "os" := MOther;
     "webbrowser" := MOther;
     "psutil" := MOther;
     "subprocess" := MOther;
     "open_chrome" := MFunction open_chrome;
     "open_calculator" := MFunction open_calculator;
     "open_notepad" := MFunction open_notepad;
     "get_cpu_usage" := MFunction get_cpu_usage;
     "get_ram_usage" := MFunction get_ram_usage;
     "list_files" := MFunction list_files ]}.

Definition a_machine : machine :=
  Machine [] "12" "40" {[ "." := ["api.py"; "check.py"] ]}.

(** ** Sample data *)

(** The registry [api.py] loads from the action module. *)
Definition ALLOWED_FUNCTIONS : gmap string (handler machine) :=
  get_available_functions automation_functions.

(** Three more handlers, to run the dispatcher on: one that needs an
    argument, one that returns the integer zero, one that returns a text. *)
Definition remove_file : handler machine :=
  Handler None [("path", None)] (λ _ w, (Ret VNone, launch "os.remove" w)).

Definition exit_status : handler machine :=
  Handler None [] (λ _ w, (Ret (VInt 0), launch "os.system true" w)).

Definition echo_refusal : handler machine :=
  Handler None [] (λ _ w, (Ret (VStr "Unauthorized function access"), w)).

(** A toy embedding to run the resolver on: a text is its own embedding, at
    distance 0 from itself and 1 from any other text.  The index is the one
    the startup rebuild builds from the registry. *)
Definition float_one : spec_float := S754_finite false 4503599627370496 (-52).

Definition discrete_distance (q e : string) : spec_float :=
  if String.eqb q e then S754_zero false else float_one.

Definition name_index : collection string :=
  (clear_and_store_functions (λ text, text) ALLOWED_FUNCTIONS []).2.

(** Handlers that fail, to run the dispatcher on: one whose body raises
    [TypeError] after it acted, one that raises an [OSError], one that raises
    an exception without text, one that leaves the interpreter. *)
Definition type_error_inside : handler machine :=
  Handler None []
    (λ _ w, (Raise (Exn TypeError "can only concatenate str (not int) to str"),
             launch "os.system calc" w)).

Definition disk_failure : handler machine :=
  Handler None []
    (λ _ w, (Raise (Exn OSError "[Errno 5] Input/output error"), launch "os.system sync" w)).

Definition silent_failure : handler machine :=
  Handler None [] (λ _ w, (Raise (Exn OtherException EmptyString), w)).

Definition quit_interpreter : handler machine :=
  Handler None [] (λ _ w, (Raise (Exn SystemExit "0"), w)).

(** The registry extended with [remove_file], and the index the startup
    rebuild builds from it under the toy embedding. *)
Definition EXTENDED_FUNCTIONS : gmap string (handler machine) :=
  <["remove_file" := remove_file]> ALLOWED_FUNCTIONS.

Definition extended_index : collection string :=
  (clear_and_store_functions (λ text, text) EXTENDED_FUNCTIONS []).2.

(** * Properties *)

(** ** The dispatcher *)

Section DispatcherFacts.
Context {World : Type}.
Implicit Types (ALLOWED : gmap string (handler World)) (f : handler World).
Implicit Types (params : option (gmap string value)) (w : World).

(** The binding raises nothing but [TypeError]. *)
Lemma bind_params_raises (sig : list param) (kwargs : gmap string value) (e : exn) :
  bind_params sig kwargs = Raise e → is_TypeError e = true.
Proof.
  revert e. induction sig as [|[x d] sig IH]; intros e; simpl; [done|].
  destruct (bind_params sig kwargs) as [args|e0].
  - destruct (kwargs !! x), d; try done. by intros [= <-].
  - intros [= <-]. by apply IH.
Qed.

(** A required parameter that receives no argument makes the binding fail. *)
Lemma bind_params_missing (sig : list param) (kwargs : gmap string value) (x : string) :
  (x, None) ∈ sig → kwargs !! x = None → is_Ret (bind_params sig kwargs) = false.
Proof.
  induction sig as [|[y d] sig IH]; intros Hin Hx.
  - by apply elem_of_nil in Hin.
  - simpl. apply elem_of_cons in Hin as [[= <- <-] | Hin].
    + destruct (bind_params sig kwargs); [by rewrite Hx | done].
    + specialize (IH Hin Hx). by destruct (bind_params sig kwargs).
Qed.

Lemma call_without_arguments f w :
  requires_parameter f → ∃ e, call f ∅ w = (Raise e, w) ∧ is_TypeError e = true.
Proof.
  intros [x Hx]. unfold call, bind_arguments.
  rewrite bool_decide_eq_true_2 by (rewrite dom_empty_L; set_solver).
  pose proof (bind_params_missing (h_params f) ∅ x Hx (lookup_empty x)) as Hmiss.
  destruct (bind_params (h_params f) ∅) as [args|e] eqn:Hb; [done|].
  exists e. split; [done|]. by eapply bind_params_raises.
Qed.

Lemma invoke_without_params f params w :
  params_truthy params = false → invoke f params w = call f ∅ w.
Proof. intros Hp. unfold invoke. destruct params; [by rewrite Hp | done]. Qed.

(** What the dispatcher answers when the call it makes returns. *)
Lemma execute_function_returns ALLOWED name f params w r w' :
  ALLOWED !! name = Some f →
  invoke f params w = (Ret r, w') →
  execute_function ALLOWED name params w
  = (Ret (if truthy r then r else VStr "Executed Successfully"), w').
Proof.
  intros Hf Hcall. unfold execute_function, execute_function_body.
  by rewrite Hf, Hcall.
Qed.

(** What the dispatcher answers when the call it makes raises. *)
Lemma execute_function_raises ALLOWED name f params w e w' :
  ALLOWED !! name = Some f →
  invoke f params w = (Raise e, w') →
  execute_function ALLOWED name params w
  = if is_TypeError e then
      (Ret (VStr ("Error: Function " +:+ name +:+ " requires parameters.")), w')
    else if is_Exception e then (Ret (VStr (exn_msg e)), w')
    else (Raise e, w').
Proof.
  intros Hf Hcall. unfold execute_function, execute_function_body.
  by rewrite Hf, Hcall.
Qed.

Lemma call_catchable ALLOWED name f kwargs w e w' :
  handlers_catchable ALLOWED → ALLOWED !! name = Some f →
  call f kwargs w = (Raise e, w') → is_Exception e = true.
Proof.
  intros Hc Hf. unfold call, bind_arguments. case_bool_decide.
  - destruct (bind_params (h_params f) kwargs) as [args|e0] eqn:Hb.
    + intros Hbody. eapply Hc; eauto.
    + intros [= <- <-]. apply bind_params_raises in Hb.
      unfold is_TypeError, is_Exception in *. by destruct (exn_cls e0).
  - by intros [= <- <-].
Qed.

(** Over such a registry the dispatcher always returns. *)
Lemma execute_function_total ALLOWED name params w :
  handlers_catchable ALLOWED →
  ∃ out w', execute_function ALLOWED name params w = (Ret out, w').
Proof.
  intros Hc. unfold execute_function, execute_function_body.
  destruct (ALLOWED !! name) as [f|] eqn:Hf; [|simpl; eauto].
  destruct (invoke f params w) as [[r|e] w'] eqn:Hcall; [eauto|].
  assert (is_Exception e = true) as He.
  { unfold invoke in Hcall. destruct params as [kw|].
    - destruct (params_truthy (Some kw)); eapply call_catchable; eauto.
    - eapply call_catchable; eauto. }
  destruct (is_TypeError e); [eauto|]. rewrite He. eauto.
Qed.

End DispatcherFacts.

(** C1, as amended.  For every name that is not a key of the allow-list and
    for every [params], [execute_function] returns the text
    "Unauthorized function access" as its outcome and leaves the machine as
    it was: no handler runs and no other action is substituted. *)
Theorem unauthorized_returns_message {World} (ALLOWED : gmap string (handler World))
    (name : string) (params : option (gmap string value)) (w : World) :
  ALLOWED !! name = None →
  execute_function ALLOWED name params w = (Ret (VStr "Unauthorized function access"), w).
Proof.
  intros Hnone. unfold execute_function, execute_function_body. by rewrite Hnone.
Qed.

Lemma unauthorized_returns_message_witness :
  ALLOWED_FUNCTIONS !! "format_disk" = None
  ∧ execute_function ALLOWED_FUNCTIONS "format_disk" (Some {[ "path" := VStr "/" ]}) a_machine
    = (Ret (VStr "Unauthorized function access"), a_machine).
Proof.
  split; [reflexivity|]. apply unauthorized_returns_message. reflexivity.
Defined.

(** C1, as stated, fails: the dispatch of a name that was never registered
    does not end in an error.  It returns a text, as a successful dispatch
    does, and a registered handler that returns the same text gives the very
    same outcome. *)
Lemma unauthorized_not_an_error :
  ALLOWED_FUNCTIONS !! "format_disk" = None
  ∧ execute_function ALLOWED_FUNCTIONS "format_disk" None a_machine
    = (Ret (VStr "Unauthorized function access"), a_machine)
  ∧ (¬ ∃ e, (execute_function ALLOWED_FUNCTIONS "format_disk" None a_machine).1 = Raise e)
  ∧ execute_function (<["echo_refusal" := echo_refusal]> ALLOWED_FUNCTIONS)
      "echo_refusal" None a_machine
    = execute_function (<["echo_refusal" := echo_refusal]> ALLOWED_FUNCTIONS)
        "format_disk" None a_machine.
Proof.
  split; [reflexivity|]. split; [reflexivity|]. split; [|reflexivity].
  intros [e He]. vm_compute in He. discriminate He.
Qed.

(** The same holds for a name the resolver produced: the entry of the batch
    carries the refusal as its output. *)
Lemma resolver_output_not_allowed {Embedding World} (encode : string → Embedding)
    (distance : Embedding → Embedding → spec_float)
    (ALLOWED : gmap string (handler World)) (c : collection Embedding)
    (prompt session_id : string) (st : state) (a : Ascii.ascii) (s : string) mem :
  retrieve_best_function encode distance c prompt session_id (session_memory st)
  = (Ret (Some (String a s)), mem) →
  ALLOWED !! String a s = None →
  resolve_and_execute encode distance ALLOWED c prompt session_id st
  = (Ret {| function := Some (String a s);
            output := VStr "Unauthorized function access";
            code := Some (generate_code (String a s)) |},
     State mem (world st)).
Proof.
  intros Hres Hnone. unfold resolve_and_execute. rewrite Hres.
  unfold execute_function, execute_function_body. by rewrite Hnone.
Qed.

(** C4.  A registered action whose handler has a parameter without default,
    dispatched without parameters ([params] absent or empty), gives the
    message "Error: Function <name> requires parameters." as a returned
    outcome; nothing is raised and the handler's body does not run. *)
Theorem missing_parameter_outcome {World} (ALLOWED : gmap string (handler World))
    (name : string) (f : handler World) (params : option (gmap string value)) (w : World) :
  ALLOWED !! name = Some f →
  requires_parameter f →
  params_truthy params = false →
  execute_function ALLOWED name params w
  = (Ret (VStr ("Error: Function " +:+ name +:+ " requires parameters.")), w).
Proof.
  intros Hf Hreq Hp.
  destruct (call_without_arguments f w Hreq) as (e & Hcall & He).
  rewrite <- (invoke_without_params f params w Hp) in Hcall.
  rewrite (execute_function_raises ALLOWED name f params w e w Hf Hcall).
  by rewrite He.
Qed.

Lemma missing_parameter_outcome_witness :
  execute_function (<["remove_file" := remove_file]> ALLOWED_FUNCTIONS)
    "remove_file" None a_machine
  = (Ret (VStr "Error: Function remove_file requires parameters."), a_machine).
Proof.
  apply (missing_parameter_outcome _ "remove_file" remove_file None a_machine).
  - reflexivity.
  - exists "path". simpl. apply list_elem_of_here.
  - reflexivity.
Defined.

(** C5.  A registered action without parameters whose handler returns
    [None], dispatched without parameters, gives the marker
    "Executed Successfully", which is a truthy value. *)
Theorem no_value_normalized {World} (ALLOWED : gmap string (handler World))
    (name : string) (f : handler World) (params : option (gmap string value))
    (w w' : World) :
  ALLOWED !! name = Some f →
  h_params f = [] →
  h_body f ∅ w = (Ret VNone, w') →
  params_truthy params = false →
  execute_function ALLOWED name params w = (Ret (VStr "Executed Successfully"), w')
  ∧ truthy (VStr "Executed Successfully") = true.
Proof.
  intros Hf Hsig Hbody Hp. split; [|done].
  rewrite (execute_function_returns ALLOWED name f params w VNone w' Hf); [done|].
  rewrite (invoke_without_params f params w Hp).
  unfold call, bind_arguments. rewrite Hsig. simpl.
  rewrite bool_decide_eq_true_2 by (rewrite dom_empty_L; set_solver). done.
Qed.

Lemma no_value_normalized_witness :
  execute_function ALLOWED_FUNCTIONS "open_chrome" None a_machine
  = (Ret (VStr "Executed Successfully"),
     launch "webbrowser.open https://www.google.com" a_machine)
  ∧ truthy (VStr "Executed Successfully") = true.
Proof.
  apply (no_value_normalized ALLOWED_FUNCTIONS "open_chrome" open_chrome None);
    reflexivity.
Defined.

(** The values Python takes for false. *)
Lemma falsy_values (r : value) :
  r ∈ [VNone; VStr EmptyString; VInt 0; VBool false; VFloat (S754_zero false);
       VFloat (S754_zero true); VList []] →
  truthy r = false.
Proof. intros Hr. repeat (apply elem_of_cons in Hr as [->|Hr]; [done|]). by apply elem_of_nil in Hr. Qed.

(** C10.  Whenever the call the dispatcher makes to a registered handler
    returns a falsy value (not only [None]: the empty text, zero, [False]),
    the outcome is the marker "Executed Successfully": the outcome is the one
    a handler that returns nothing gives. *)
Theorem falsy_value_replaced {World} (ALLOWED : gmap string (handler World))
    (name : string) (f : handler World) (params : option (gmap string value))
    (w w' : World) (r : value) :
  ALLOWED !! name = Some f →
  invoke f params w = (Ret r, w') →
  truthy r = false →
  execute_function ALLOWED name params w = (Ret (VStr "Executed Successfully"), w').
Proof.
  intros Hf Hcall Hr.
  rewrite (execute_function_returns ALLOWED name f params w r w' Hf Hcall).
  by rewrite Hr.
Qed.

Lemma falsy_value_replaced_witness :
  execute_function (<["exit_status" := exit_status]> ALLOWED_FUNCTIONS)
    "exit_status" None a_machine
  = (Ret (VStr "Executed Successfully"), launch "os.system true" a_machine).
Proof.
  apply (falsy_value_replaced _ "exit_status" exit_status None a_machine _ (VInt 0));
    reflexivity.
Defined.

(** ** The session store *)

Lemma occurrences_app (prompt : string) (h1 h2 : list string) :
  occurrences prompt (h1 ++ h2) = occurrences prompt h1 + occurrences prompt h2.
Proof. unfold occurrences. by rewrite filter_app, length_app. Qed.

Lemma occurrences_absent (prompt : string) (h : list string) :
  prompt ∉ h → occurrences prompt h = 0.
Proof.
  unfold occurrences. induction h as [|x h IH]; intros Hnot; [done|].
  apply not_elem_of_cons in Hnot as [Hne Hnot].
  rewrite filter_cons_False by congruence. by apply IH.
Qed.

Lemma occurrences_nodup (prompt : string) (h : list string) :
  NoDup h → prompt ∈ h → occurrences prompt h = 1.
Proof.
  unfold occurrences. induction 1 as [|x h Hx Hnd IH]; intros Hin.
  - by apply elem_of_nil in Hin.
  - destruct (decide (x = prompt)) as [->|Hne].
    + rewrite filter_cons_True by done. simpl. f_equal.
      by apply occurrences_absent.
    + rewrite filter_cons_False by done. apply IH.
      apply elem_of_cons in Hin as [?|?]; [congruence|done].
Qed.

Lemma history_setdefault (sid sid' : string) (mem : gmap string (list string)) :
  history sid' (setdefault sid mem) = history sid' mem.
Proof.
  unfold history, setdefault. destruct (mem !! sid) eqn:Hsid; [done|].
  destruct (decide (sid = sid')) as [<-|Hne].
  - by rewrite lookup_insert_eq, Hsid.
  - by rewrite lookup_insert_ne.
Qed.

Lemma lookup_total_setdefault (sid : string) (mem : gmap string (list string)) :
  setdefault sid mem !!! sid = history sid mem.
Proof.
  unfold history, setdefault. rewrite lookup_total_alt.
  destruct (mem !! sid) eqn:Hsid; [by rewrite Hsid|]. by rewrite lookup_insert_eq.
Qed.

(** The history of the session after [record]. *)
Lemma history_record (sid prompt : string) (mem : gmap string (list string)) :
  history sid (record sid prompt mem)
  = if bool_decide (prompt ∈ history sid mem) then history sid mem
    else history sid mem ++ [prompt].
Proof.
  unfold record. rewrite lookup_total_setdefault. case_bool_decide.
  - apply history_setdefault.
  - unfold history at 1. by rewrite lookup_insert_eq.
Qed.

Lemma history_record_other (sid sid' prompt : string) (mem : gmap string (list string)) :
  sid' ≠ sid → history sid' (record sid prompt mem) = history sid' mem.
Proof.
  intros Hne. unfold record. case_bool_decide.
  - apply history_setdefault.
  - unfold history at 1. rewrite lookup_insert_ne by done. apply history_setdefault.
Qed.

Lemma elem_of_history_record (sid prompt : string) (mem : gmap string (list string)) :
  prompt ∈ history sid (record sid prompt mem).
Proof.
  rewrite history_record. case_bool_decide; [done|]. set_solver.
Qed.

Lemma record_idempotent (sid prompt : string) (mem : gmap string (list string)) :
  record sid prompt (record sid prompt mem) = record sid prompt mem.
Proof.
  pose proof (elem_of_history_record sid prompt mem) as Hin.
  set (mem1 := record sid prompt mem) in *.
  assert (is_Some (mem1 !! sid)) as [h Hh].
  { unfold history in Hin. destruct (mem1 !! sid); [eauto|]. by apply elem_of_nil in Hin. }
  unfold record at 1, setdefault. rewrite Hh.
  rewrite bool_decide_eq_true_2; [done|].
  rewrite lookup_total_alt. unfold history in Hin. by rewrite Hh in *.
Qed.

Lemma histories_nodup_empty : histories_nodup ∅.
Proof. intros sid h Hh. by rewrite lookup_empty in Hh. Qed.

Lemma history_nodup (sid : string) (mem : gmap string (list string)) :
  histories_nodup mem → NoDup (history sid mem).
Proof.
  intros Hwf. unfold history. destruct (mem !! sid) as [h|] eqn:Hh; simpl.
  - by eapply Hwf.
  - constructor.
Qed.

Lemma histories_nodup_record (sid prompt : string) (mem : gmap string (list string)) :
  histories_nodup mem → histories_nodup (record sid prompt mem).
Proof.
  intros Hwf sid' h Hh.
  assert (h = history sid' (record sid prompt mem)) as ->.
  { unfold history. by rewrite Hh. }
  destruct (decide (sid' = sid)) as [->|Hne].
  - rewrite history_record. case_bool_decide; [by apply history_nodup|].
    apply NoDup_app. split; [by apply history_nodup|].
    split; [|apply NoDup_singleton]. intros x Hx Hx'.
    apply list_elem_of_singleton in Hx' as ->. done.
  - rewrite history_record_other by done. by apply history_nodup.
Qed.

(** Every store that a sequence of submissions builds from the empty store
    has duplicate-free histories. *)
Lemma histories_nodup_reachable (submissions : list (string * string)) :
  histories_nodup (foldl (λ mem sp, record sp.1 sp.2 mem) ∅ submissions).
Proof.
  generalize histories_nodup_empty.
  generalize (∅ : gmap string (list string)) as mem.
  induction submissions as [|[sid prompt] submissions IH]; intros mem Hwf; [done|].
  simpl. apply IH. by apply histories_nodup_record.
Qed.

(** C3.  In a store whose histories are duplicate free (as is every store
    reached from the empty one), for every session: recording a prompt a
    second time changes nothing and the prompt stands exactly once in the
    history; two distinct prompts, recorded one after the other, each stand
    exactly once, and when both are new they end the history in the order of
    submission; the history of any other session is what it was. *)
Theorem session_record (mem : gmap string (list string)) (sid p q : string) :
  histories_nodup mem →
  record sid p (record sid p mem) = record sid p mem
  ∧ occurrences p (history sid (record sid p (record sid p mem))) = 1
  ∧ (p ≠ q →
     occurrences p (history sid (record sid q (record sid p mem))) = 1
     ∧ occurrences q (history sid (record sid q (record sid p mem))) = 1
     ∧ (p ∉ history sid mem → q ∉ history sid mem →
        history sid (record sid q (record sid p mem)) = history sid mem ++ [p; q]))
  ∧ (∀ sid', sid' ≠ sid → history sid' (record sid p mem) = history sid' mem)
  ∧ histories_nodup (record sid p mem).
Proof.
  intros Hwf.
  pose proof (histories_nodup_record sid p mem Hwf) as Hwf1.
  pose proof (histories_nodup_record sid q _ Hwf1) as Hwf2.
  split; [apply record_idempotent|].
  split.
  { rewrite record_idempotent.
    apply occurrences_nodup; [by apply history_nodup | apply elem_of_history_record]. }
  split; [|split; [intros; by apply history_record_other | done]].
  intros Hpq. split; [|split].
  - apply occurrences_nodup; [by apply history_nodup|].
    rewrite (history_record sid q). case_bool_decide.
    + apply elem_of_history_record.
    + apply elem_of_app. left. apply elem_of_history_record.
  - apply occurrences_nodup; [by apply history_nodup | apply elem_of_history_record].
  - intros Hp Hq. rewrite (history_record sid q), (history_record sid p).
    rewrite (bool_decide_eq_false_2 (p ∈ history sid mem)) by done.
    rewrite bool_decide_eq_false_2.
    + by rewrite <- app_assoc.
    + intros Hin. apply elem_of_app in Hin as [Hin|Hin]; [done|].
      apply list_elem_of_singleton in Hin. congruence.
Qed.

Lemma session_record_witness :
  history "s1" (record "s1" "open chrome" (record "s1" "open chrome" ∅)) = ["open chrome"]
  ∧ history "s1" (record "s1" "cpu load" (record "s1" "open chrome" ∅))
    = ["open chrome"; "cpu load"].
Proof.
  destruct (session_record ∅ "s1" "open chrome" "cpu load" histories_nodup_empty)
    as (Hidem & _ & Htwo & _).
  split.
  - rewrite Hidem. reflexivity.
  - destruct (Htwo ltac:(discriminate)) as (_ & _ & Horder).
    apply Horder; unfold history; rewrite lookup_empty; apply not_elem_of_nil.
Defined.

(** The resolver records the prompt, whatever the query answers. *)
Lemma retrieve_records {Embedding} (encode : string → Embedding)
    (distance : Embedding → Embedding → spec_float) (c : collection Embedding)
    (prompt sid : string) (mem : gmap string (list string)) :
  (retrieve_best_function encode distance c prompt sid mem).2 = record sid prompt mem.
Proof. reflexivity. Qed.

(** ** The resolver *)

(** The threshold is the binary64 number nearest to 0.45. *)
Lemma SIMILARITY_THRESHOLD_binary64 : valid_binary 53 1024 SIMILARITY_THRESHOLD = true.
Proof. reflexivity. Qed.

(** Only the threshold itself compares equal to the threshold. *)
Lemma SFeqb_threshold (d : spec_float) :
  SFeqb d SIMILARITY_THRESHOLD = true → d = SIMILARITY_THRESHOLD.
Proof.
  unfold SFeqb, SIMILARITY_THRESHOLD.
  destruct d as [s|s| |s m e]; cbn [SFcompare]; try discriminate.
  - destruct s; discriminate.
  - destruct s; [discriminate|].
    destruct (Z.compare_spec e (-54)) as [->| |]; try discriminate.
    rewrite Pos.compare_cont_spec. cbn [Pos.switch_Eq].
    destruct (Pos.compare_spec m 8106479329266893) as [->| |]; try discriminate.
    reflexivity.
Qed.

Section ResolverFacts.
Context {Embedding : Type}.
Variable encode : string → Embedding.
Variable distance : Embedding → Embedding → spec_float.
Implicit Types (c : collection Embedding) (q : Embedding).

Lemma nearest_empty c q : nearest distance c q = None ↔ c = [].
Proof.
  split; [|by intros ->].
  destruct c as [|e c]; [done|]. simpl.
  destruct (nearest distance c q) as [[i d']|]; [|done].
  by destruct (SFltb d' (distance q (entry_embedding e))).
Qed.

(** The nearest entry is an entry of the collection, at its distance. *)
Lemma nearest_elem_of c q i d :
  nearest distance c q = Some (i, d) →
  ∃ e, e ∈ c ∧ entry_id e = i ∧ distance q (entry_embedding e) = d.
Proof.
  revert i d. induction c as [|e c IH]; intros i d; simpl; [done|].
  destruct (nearest distance c q) as [[i' d']|] eqn:Hrest.
  - destruct (SFltb d' (distance q (entry_embedding e))).
    + intros [= <- <-]. destruct (IH i' d' eq_refl) as (e' & ? & ? & ?).
      exists e'. split; [by apply elem_of_cons; right | done].
    + intros [= <- <-]. exists e. split; [apply list_elem_of_here | done].
  - intros [= <- <-]. exists e. split; [apply list_elem_of_here | done].
Qed.

(** The two shapes of the answer of the query. *)
Lemma collection_query_cases c q :
  (c = [] ∧ collection_query distance c [q] = {| ids := [[]]; distances := [[]] |})
  ∨ (c ≠ [] ∧ ∃ i d, nearest distance c q = Some (i, d)
       ∧ collection_query distance c [q] = {| ids := [[i]]; distances := [[d]] |}).
Proof.
  unfold collection_query. simpl.
  destruct (nearest distance c q) as [[i d]|] eqn:Hn.
  - right. split; [|by eauto]. intros ->. done.
  - left. by apply nearest_empty in Hn.
Qed.

(** The resolver never raises on the answers of the query. *)
Lemma retrieve_total c prompt sid mem :
  ∃ name, retrieve_best_function encode distance c prompt sid mem
          = (Ret name, record sid prompt mem).
Proof.
  unfold retrieve_best_function.
  destruct (collection_query_cases c (encode prompt)) as [[_ ->]|(_ & i & d & _ & ->)];
    unfold select_match; simpl; [eauto|].
  destruct (SFltb SIMILARITY_THRESHOLD d); eauto.
Qed.

End ResolverFacts.

(** C2.  For every prompt and session id: when the query returns an entry
    at a distance greater than the threshold, the index is not empty and the
    resolver still answers [None]; when the distance is not greater than the
    threshold, the resolver answers the name of that entry; when the index is
    empty, the query returns no entry and the resolver answers [None]. *)
Theorem resolve_threshold {Embedding} (encode : string → Embedding)
    (distance : Embedding → Embedding → spec_float) (c : collection Embedding)
    (prompt sid : string) (mem : gmap string (list string)) :
  let results := collection_query distance c [encode prompt] in
  let answer := (retrieve_best_function encode distance c prompt sid mem).1 in
  (∀ name d, ids results = [[name]] → distances results = [[d]] →
     SFltb SIMILARITY_THRESHOLD d = true → c ≠ [] ∧ answer = Ret None)
  ∧ (∀ name d, ids results = [[name]] → distances results = [[d]] →
       SFltb SIMILARITY_THRESHOLD d = false → answer = Ret (Some name))
  ∧ (c = [] → ids results = [[]] ∧ answer = Ret None).
Proof.
  intros results answer.
  assert (answer = select_match results) as -> by reflexivity.
  split; [|split].
  - intros name d Hids Hd Hgt. split.
    + intros ->. discriminate Hids.
    + unfold select_match. by rewrite Hids, Hd, Hgt.
  - intros name d Hids Hd Hle. unfold select_match. by rewrite Hids, Hd, Hle.
  - by intros ->.
Qed.

Lemma resolve_threshold_witness :
  (retrieve_best_function (λ text, text) discrete_distance name_index
     "asdkjhasdkjh nonsense" "s1" ∅).1 = Ret None
  ∧ (retrieve_best_function (λ text, text) discrete_distance name_index
       "get_cpu_usage" "s1" ∅).1 = Ret (Some "get_cpu_usage")
  ∧ (retrieve_best_function (λ text, text) discrete_distance []
       "get_cpu_usage" "s1" ∅).1 = Ret None.
Proof.
  split; [|split].
  - destruct (resolve_threshold (λ text, text) discrete_distance name_index
                "asdkjhasdkjh nonsense" "s1" ∅) as (Hreject & _ & _).
    refine (proj2 (Hreject "open_calculator" float_one _ _ _)); reflexivity.
  - destruct (resolve_threshold (λ text, text) discrete_distance name_index
                "get_cpu_usage" "s1" ∅) as (_ & Haccept & _).
    refine (Haccept "get_cpu_usage" (S754_zero false) _ _ _); reflexivity.
  - destruct (resolve_threshold (λ text, text) discrete_distance []
                "get_cpu_usage" "s1" ∅) as (_ & _ & Hempty).
    exact (proj2 (Hempty eq_refl)).
Defined.

(** C9.  When the distance of the nearest entry equals the threshold, the
    resolver answers the name of that entry: the threshold itself is
    accepted. *)
Theorem threshold_inclusive {Embedding} (encode : string → Embedding)
    (distance : Embedding → Embedding → spec_float) (c : collection Embedding)
    (prompt sid : string) (mem : gmap string (list string)) (name : string)
    (d : spec_float) :
  ids (collection_query distance c [encode prompt]) = [[name]] →
  distances (collection_query distance c [encode prompt]) = [[d]] →
  SFeqb d SIMILARITY_THRESHOLD = true →
  (retrieve_best_function encode distance c prompt sid mem).1 = Ret (Some name).
Proof.
  intros Hids Hd Heq. apply SFeqb_threshold in Heq as ->.
  unfold retrieve_best_function, select_match. cbn [fst].
  by rewrite Hids, Hd.
Qed.

Lemma threshold_inclusive_witness :
  (retrieve_best_function (λ text, text) (λ _ _, SIMILARITY_THRESHOLD)
     [Entry "open_chrome" "open_chrome" None] "launch the browser" "s1" ∅).1
  = Ret (Some "open_chrome").
Proof.
  apply (threshold_inclusive _ _ _ _ _ _ "open_chrome" SIMILARITY_THRESHOLD);
    reflexivity.
Defined.

(** ** The startup rebuild of the index *)

Section RebuildFacts.
Context {Embedding World : Type}.
Variable encode : string → Embedding.
Variable ALLOWED : gmap string (handler World).
Implicit Types (c : collection Embedding).

Lemma zip_entries_names (names : list string) :
  zip_entries names (encode <$> names) ((λ _, None) <$> names) = fresh_entry encode <$> names.
Proof.
  induction names as [|n names IH]; [done|].
  rewrite !fmap_cons. cbn [zip_entries]. by rewrite IH.
Qed.

Lemma filter_none {A} (P : A → Prop) `{∀ x, Decision (P x)} (l : list A) :
  (∀ x, x ∈ l → ¬ P x) → filter P l = [].
Proof.
  induction l as [|x l IH]; intros Hl; [done|].
  rewrite filter_cons_False by (apply Hl, list_elem_of_here).
  apply IH. intros y Hy. apply Hl. by apply elem_of_cons; right.
Qed.

Lemma filter_every {A} (P : A → Prop) `{∀ x, Decision (P x)} (l : list A) :
  (∀ x, x ∈ l → P x) → filter P l = l.
Proof.
  induction l as [|x l IH]; intros Hl; [done|].
  rewrite filter_cons_True by (apply Hl, list_elem_of_here).
  f_equal. apply IH. intros y Hy. apply Hl. by apply elem_of_cons; right.
Qed.

Lemma filter_all_ids c :
  filter (λ e, entry_id e ∉ entry_id <$> c) c = [].
Proof.
  apply filter_none. intros e He Hnot. apply Hnot. by apply list_elem_of_fmap_2.
Qed.

(** The [try] block empties the collection. *)
Lemma delete_old_embeddings_empty c : delete_old_embeddings c = (Ret (), []).
Proof.
  unfold delete_old_embeddings, collection_get_ids, collection_delete.
  case_bool_decide as Hids.
  - by rewrite filter_all_ids.
  - by apply fmap_nil_inv in Hids as ->.
Qed.

Lemma store_functions_empty (names : list string) :
  NoDup names → names ≠ [] →
  store_functions encode names [] = (Ret (), fresh_entry encode <$> names).
Proof.
  intros Hnd Hne. unfold store_functions, collection_add.
  rewrite bool_decide_eq_false_2 by done.
  rewrite bool_decide_eq_true_2 by (by rewrite !length_fmap).
  rewrite bool_decide_eq_true_2 by done. cbn [negb app].
  rewrite zip_entries_names. f_equal.
  apply filter_every. intros e _. apply not_elem_of_nil.
Qed.

(** With no name to store, the client refuses the batch. *)
Lemma store_functions_nothing c :
  store_functions encode [] c
  = (Raise (Exn ValueError "Expected IDs to be a non-empty list, got 0 IDs"), c).
Proof. reflexivity. Qed.

(** The rebuild is the storing of the registry keys into the emptied
    collection. *)
Lemma clear_and_store_functions_run c :
  clear_and_store_functions encode ALLOWED c
  = store_functions encode (map_to_list ALLOWED).*1 [].
Proof.
  unfold clear_and_store_functions. by rewrite delete_old_embeddings_empty.
Qed.

Lemma keys_nil : (map_to_list ALLOWED).*1 = [] ↔ ALLOWED = ∅.
Proof.
  rewrite <- map_to_list_empty_iff. split; [apply fmap_nil_inv|by intros ->].
Qed.

Lemma clear_and_store_functions_eq c :
  ALLOWED ≠ ∅ →
  clear_and_store_functions encode ALLOWED c
  = (Ret (), fresh_entry encode <$> (map_to_list ALLOWED).*1).
Proof.
  intros Hne. rewrite clear_and_store_functions_run.
  apply store_functions_empty; [apply NoDup_fst_map_to_list|].
  intros Hnil. by apply Hne, keys_nil.
Qed.

(** On the empty registry the rebuild stops on the refusal of the client,
    after the collection was emptied. *)
Lemma clear_and_store_functions_nothing c :
  ALLOWED = ∅ →
  clear_and_store_functions encode ALLOWED c
  = (Raise (Exn ValueError "Expected IDs to be a non-empty list, got 0 IDs"), []).
Proof.
  intros Hempty. rewrite clear_and_store_functions_run.
  rewrite (proj2 keys_nil Hempty). apply store_functions_nothing.
Qed.

(** The collection the rebuild leaves, whether it ends or stops. *)
Lemma clear_and_store_functions_collection c :
  (clear_and_store_functions encode ALLOWED c).2
  = fresh_entry encode <$> (map_to_list ALLOWED).*1.
Proof.
  destruct (decide (ALLOWED = ∅)) as [Hempty|Hne].
  - rewrite (clear_and_store_functions_nothing c Hempty).
    by rewrite (proj2 keys_nil Hempty).
  - by rewrite (clear_and_store_functions_eq c Hne).
Qed.

Lemma entry_id_fresh (names : list string) :
  entry_id <$> (fresh_entry encode <$> names) = names.
Proof. rewrite <- list_fmap_compose. apply list_fmap_id. Qed.

Lemma elem_of_keys (name : string) :
  name ∈ (map_to_list ALLOWED).*1 ↔ is_Some (ALLOWED !! name).
Proof.
  rewrite list_elem_of_fmap. split.
  - intros [[k f] [-> Hin]]. apply elem_of_map_to_list in Hin. eauto.
  - intros [f Hf]. exists (name, f). split; [done|]. by apply elem_of_map_to_list.
Qed.

End RebuildFacts.

(** C7.  Whatever the collection held before, the startup rebuild first
    leaves it empty (every stored entry is deleted, also those of actions
    that are no longer registered); the collection it leaves then has no
    repeated id, its ids are exactly the registered names, it has as many
    entries as the registry has actions, and each of them is freshly built.
    The rebuild ends normally when the registry holds an action; on a
    registry without any action the client refuses the empty batch with
    [ValueError] and the collection stays empty. *)
Theorem rebuild_index {Embedding World} (encode : string → Embedding)
    (ALLOWED : gmap string (handler World)) (c : collection Embedding) :
  delete_old_embeddings c = (Ret (), [])
  ∧ (ALLOWED ≠ ∅ → (clear_and_store_functions encode ALLOWED c).1 = Ret ())
  ∧ (ALLOWED = ∅ →
     ∃ msg, clear_and_store_functions encode ALLOWED c = (Raise (Exn ValueError msg), []))
  ∧ NoDup (entry_id <$> (clear_and_store_functions encode ALLOWED c).2)
  ∧ (∀ name, name ∈ entry_id <$> (clear_and_store_functions encode ALLOWED c).2
             ↔ is_Some (ALLOWED !! name))
  ∧ length (clear_and_store_functions encode ALLOWED c).2 = size ALLOWED
  ∧ (∀ e, e ∈ (clear_and_store_functions encode ALLOWED c).2 →
          e = fresh_entry encode (entry_id e)).
Proof.
  split; [apply delete_old_embeddings_empty|].
  split; [intros Hne; by rewrite (clear_and_store_functions_eq encode ALLOWED c Hne)|].
  split; [intros Hempty; eexists; by apply clear_and_store_functions_nothing|].
  rewrite clear_and_store_functions_collection, entry_id_fresh.
  split; [apply NoDup_fst_map_to_list|].
  split; [apply elem_of_keys|].
  split; [by rewrite !length_fmap, length_map_to_list|].
  intros e He. apply list_elem_of_fmap in He as (name & -> & _). done.
Qed.

Lemma rebuild_index_witness :
  (clear_and_store_functions (λ text, text) ALLOWED_FUNCTIONS
     [Entry "format_disk" "format_disk" None]).1 = Ret ()
  ∧ ∃ msg, clear_and_store_functions (λ text, text) (∅ : gmap string (handler machine))
             [Entry "format_disk" "format_disk" None]
           = (Raise (Exn ValueError msg), []).
Proof.
  split.
  - destruct (rebuild_index (λ text, text) ALLOWED_FUNCTIONS
                [Entry "format_disk" "format_disk" None]) as (_ & Hends & _).
    apply Hends. intros Hempty.
    assert (ALLOWED_FUNCTIONS !! "list_files" = Some list_files) as Hin by reflexivity.
    rewrite Hempty in Hin. discriminate Hin.
  - destruct (rebuild_index (λ text, text) (∅ : gmap string (handler machine))
                [Entry "format_disk" "format_disk" None]) as (_ & _ & Hstops & _).
    exact (Hstops eq_refl).
Defined.

(** C8, as amended.  For every registered action the rebuilt index holds
    exactly one entry under its name, and the text embedded for that entry is
    the name itself, whether or not the handler has a docstring. *)
Theorem embedded_text_is_name {Embedding World} (encode : string → Embedding)
    (ALLOWED : gmap string (handler World)) (c : collection Embedding)
    (name : string) (f : handler World) :
  ALLOWED !! name = Some f →
  ∃ e, e ∈ (clear_and_store_functions encode ALLOWED c).2
       ∧ entry_id e = name
       ∧ entry_embedding e = encode name
       ∧ ∀ e', e' ∈ (clear_and_store_functions encode ALLOWED c).2 →
               entry_id e' = name → e' = e.
Proof.
  intros Hf. rewrite clear_and_store_functions_collection.
  exists (fresh_entry encode name). split; [|split; [done|split; [done|]]].
  - apply list_elem_of_fmap_2. apply elem_of_keys. eauto.
  - intros e' He' <-. by apply list_elem_of_fmap in He' as (n & -> & _).
Qed.

Lemma embedded_text_is_name_witness :
  ∃ e, e ∈ name_index
       ∧ entry_id e = "list_files"
       ∧ entry_embedding e = "list_files"
       ∧ ∀ e', e' ∈ name_index → entry_id e' = "list_files" → e' = e.
Proof.
  apply (embedded_text_is_name (λ text, text) ALLOWED_FUNCTIONS [] "list_files" list_files).
  reflexivity.
Defined.

(** C8, as stated, fails on [list_files]: the action has a description, yet
    the text embedded for its entry is its name. *)
Lemma descriptor_not_embedded :
  ALLOWED_FUNCTIONS !! "list_files" = Some list_files
  ∧ descriptor "list_files" list_files = "Lists files in the specified directory."
  ∧ Entry "list_files" "list_files" None ∈ name_index
  ∧ ¬ (∀ name f e, ALLOWED_FUNCTIONS !! name = Some f →
         e ∈ name_index → entry_id e = name →
         entry_embedding e = descriptor name f).
Proof.
  assert (Entry "list_files" "list_files" None ∈ name_index) as Hin.
  { vm_compute. repeat (first [apply list_elem_of_here | apply list_elem_of_further]). }
  split; [reflexivity|]. split; [reflexivity|]. split; [exact Hin|].
  intros Hall.
  specialize (Hall "list_files" list_files _ eq_refl Hin eq_refl).
  discriminate Hall.
Qed.

(** ** The standalone registry script *)

Section FunctionRegistryFacts.
Context {Embedding World : Type}.
Variable encode : string → Embedding.
Implicit Types (c : collection Embedding) (module : gmap string (member World)).

(** As the script stands, the name [automation] is unbound: the run stops
    on [NameError] after the stored entries were deleted. *)
Lemma function_registry_name_error module c :
  function_registry encode (registry_globals module) c
  = (Raise (Exn NameError "name 'automation' is not defined"), []).
Proof.
  unfold function_registry, collection_get_ids, collection_delete.
  assert (registry_globals module !! "automation" = None) as -> by reflexivity.
  case_bool_decide as Hids.
  - by rewrite filter_all_ids.
  - by apply fmap_nil_inv in Hids as ->.
Qed.

Lemma store_descriptions_fresh (items : list (string * string)) c :
  NoDup (items.*1) →
  (∀ n, n ∈ items.*1 → n ∉ entry_id <$> c) →
  store_descriptions encode items c = (Ret (), c ++ (described_entry encode <$> items)).
Proof.
  revert c. induction items as [|[n d] items IH]; intros c Hnd Hfresh.
  { simpl. by rewrite app_nil_r. }
  rewrite fmap_cons in Hnd. apply NoDup_cons in Hnd as [Hn Hnd].
  cbn [store_descriptions]. unfold collection_add.
  rewrite bool_decide_eq_false_2 by done.
  rewrite bool_decide_eq_true_2 by done.
  rewrite bool_decide_eq_true_2 by apply NoDup_singleton.
  cbn [negb zip_entries].
  rewrite filter_every.
  - rewrite IH; [by rewrite <- app_assoc | done |].
    intros n' Hn' Hin. rewrite fmap_app in Hin.
    apply elem_of_app in Hin as [Hin|Hin].
    + apply (Hfresh n'); [|done]. rewrite fmap_cons. by apply elem_of_cons; right.
    + apply list_elem_of_singleton in Hin. simpl in Hin. by subst n'.
  - intros e He. apply list_elem_of_singleton in He as ->. cbn [entry_id].
    apply Hfresh. rewrite fmap_cons. apply list_elem_of_here.
Qed.

(** Were [automation] bound to the action module, the script would embed,
    for each function, its docstring, and the text
    "No description available" for a function without docstring. *)
Lemma function_registry_descriptions (globals : gmap string (pyobj World)) module c :
  globals !! "automation" = Some (OModule module) →
  function_registry encode globals c
  = (Ret (), described_entry encode
             <$> map_to_list (description_of <$> get_available_functions module)).
Proof.
  intros Hbound. unfold function_registry, collection_get_ids, collection_delete.
  rewrite Hbound.
  assert ((if bool_decide (entry_id <$> c ≠ [])
           then Ret (filter (λ e, entry_id e ∉ entry_id <$> c) c) else Ret c)
          = Ret []) as ->.
  { case_bool_decide as Hids; [by rewrite filter_all_ids|].
    by apply fmap_nil_inv in Hids as ->. }
  rewrite store_descriptions_fresh; [done|apply NoDup_fst_map_to_list|].
  intros n _. apply not_elem_of_nil.
Qed.

End FunctionRegistryFacts.

(** ** The batch endpoint *)

Section BatchFacts.
Context {Embedding World : Type}.
Variable encode : string → Embedding.
Variable distance : Embedding → Embedding → spec_float.
Variable ALLOWED : gmap string (handler World).
Variable c : collection Embedding.

Lemma retrieve_resolved prompt sid mem :
  retrieve_best_function encode distance c prompt sid mem
  = (resolved encode distance c prompt, record sid prompt mem).
Proof. reflexivity. Qed.

Hypothesis catchable : handlers_catchable ALLOWED.

Lemma resolve_and_execute_entry prompt sid (st : state) :
  ∃ r w', resolve_and_execute encode distance ALLOWED c prompt sid st
          = (Ret r, State (record sid prompt (session_memory st)) w')
          ∧ entry_for encode distance c prompt r.
Proof.
  unfold resolve_and_execute, entry_for. rewrite retrieve_resolved.
  destruct (retrieve_total encode distance c prompt sid (session_memory st)) as [name Hname].
  rewrite retrieve_resolved in Hname. injection Hname as ->.
  destruct name as [[|a s]|]; [by eauto| |by eauto].
  destruct (execute_function_total ALLOWED (String a s) None (world st) catchable)
    as (out & w' & ->).
  by eauto.
Qed.

Lemma execute_multiple_loop_entries prompts sid acc (st : state) :
  ∃ rs st', execute_multiple_loop encode distance ALLOWED c prompts sid acc st
            = (Ret (acc ++ rs), st')
            ∧ Forall2 (entry_for encode distance c) prompts rs.
Proof.
  revert acc st. induction prompts as [|prompt prompts IH]; intros acc st.
  - exists [], st. simpl. by rewrite app_nil_r.
  - destruct (resolve_and_execute_entry prompt sid st) as (r & w' & Hstep & Hr).
    cbn [execute_multiple_loop]. rewrite Hstep.
    destruct (IH (acc ++ [r]) (State (record sid prompt (session_memory st)) w'))
      as (rs & st' & -> & Hrs).
    exists (r :: rs), st'. split; [by rewrite <- app_assoc | by constructor].
Qed.

End BatchFacts.

(** The registry holds the six functions of the action module and nothing
    else. *)
Lemma ALLOWED_FUNCTIONS_items :
  map_to_list ALLOWED_FUNCTIONS
  = [("open_calculator", open_calculator); ("open_chrome", open_chrome);
     ("open_notepad", open_notepad); ("get_cpu_usage", get_cpu_usage);
     ("get_ram_usage", get_ram_usage); ("list_files", list_files)].
Proof. vm_compute. reflexivity. Qed.

(** The bodies of the six actions never raise. *)
Lemma ALLOWED_FUNCTIONS_catchable : handlers_catchable ALLOWED_FUNCTIONS.
Proof.
  assert (map_Forall (λ _ f, ∀ args w e w',
            h_body f args w = (Raise e, w') → is_Exception e = true)
          ALLOWED_FUNCTIONS) as Hall.
  { apply map_Forall_to_list. rewrite ALLOWED_FUNCTIONS_items.
    repeat apply Forall_cons_2; [..|apply Forall_nil_2];
      intros args w e w'; cbn [uncurry h_body fst snd]; try discriminate.
    unfold list_files. cbn [h_body]. repeat case_match; discriminate. }
  intros name f args w e w' Hf. by apply (Hall name f Hf).
Qed.

(** C6.  Over a registry whose handlers raise nothing outside [Exception],
    the batch endpoint returns, for every sequence of prompts, one entry per
    prompt and in the order of the prompts: the entry at position [i] is the
    no-match entry (null name) when the prompt at position [i] resolves to no
    match, and an entry under the resolved name otherwise; an unmatched
    prompt does not stop the prompts after it from being processed. *)
Theorem batch_one_entry_per_prompt {Embedding World} (encode : string → Embedding)
    (distance : Embedding → Embedding → spec_float)
    (ALLOWED : gmap string (handler World)) (c : collection Embedding)
    (request : MultiFunctionRequest) (st : state) :
  handlers_catchable ALLOWED →
  ∃ response st',
    execute_multiple encode distance ALLOWED c request st = (Ret response, st')
    ∧ length (results response) = length (req_prompts request)
    ∧ ∀ i prompt, req_prompts request !! i = Some prompt →
        ∃ r, results response !! i = Some r
             ∧ (∀ sid mem,
                  (retrieve_best_function encode distance c prompt sid mem).1 = Ret None →
                  r = no_match_entry)
             ∧ (∀ sid mem a s,
                  (retrieve_best_function encode distance c prompt sid mem).1
                  = Ret (Some (String a s)) →
                  function r = Some (String a s)
                  ∧ code r = Some (generate_code (String a s))).
Proof.
  intros Hc. unfold execute_multiple.
  destruct (execute_multiple_loop_entries encode distance ALLOWED c Hc
              (req_prompts request) (req_multi_session_id request) [] st)
    as (rs & st' & -> & Hrs).
  eexists _, st'. split; [reflexivity|]. cbn [results app].
  split; [symmetry; by eapply Forall2_length|].
  intros i prompt Hi.
  destruct (Forall2_lookup_l _ _ _ _ _ Hrs Hi) as (r & Hr & Hentry).
  exists r. split; [done|]. unfold entry_for in Hentry.
  split.
  - intros sid mem. rewrite retrieve_resolved. cbn [fst]. intros Hres.
    by rewrite Hres in Hentry.
  - intros sid mem a s. rewrite retrieve_resolved. cbn [fst]. intros Hres.
    by rewrite Hres in Hentry.
Qed.

Lemma batch_one_entry_per_prompt_witness :
  ∃ response st',
    execute_multiple (λ text, text) discrete_distance ALLOWED_FUNCTIONS name_index
      {| req_prompts := ["open_chrome"; "asdkjhasdkjh"]; req_multi_session_id := "s1" |}
      (State ∅ a_machine)
    = (Ret response, st')
    ∧ length (results response) = 2
    ∧ ∀ i prompt, ["open_chrome"; "asdkjhasdkjh"] !! i = Some prompt →
        ∃ r, results response !! i = Some r
             ∧ (∀ sid mem,
                  (retrieve_best_function (λ text, text) discrete_distance name_index
                     prompt sid mem).1 = Ret None →
                  r = no_match_entry)
             ∧ (∀ sid mem a s,
                  (retrieve_best_function (λ text, text) discrete_distance name_index
                     prompt sid mem).1 = Ret (Some (String a s)) →
                  function r = Some (String a s)
                  ∧ code r = Some (generate_code (String a s))).
Proof.
  exact (batch_one_entry_per_prompt (λ text, text) discrete_distance ALLOWED_FUNCTIONS
           name_index
           {| req_prompts := ["open_chrome"; "asdkjhasdkjh"]; req_multi_session_id := "s1" |}
           (State ∅ a_machine) ALLOWED_FUNCTIONS_catchable).
Defined.

(** The run of the scenario of the specification on the toy embedding: two
    entries in order, the second one the no-match entry, and both prompts in
    the history. *)
Example batch_scenario :
  (execute_multiple (λ text, text) discrete_distance ALLOWED_FUNCTIONS name_index
     {| req_prompts := ["open_chrome"; "asdkjhasdkjh"]; req_multi_session_id := "s1" |}
     (State ∅ a_machine)).1
  = Ret {| session_history := ["open_chrome"; "asdkjhasdkjh"];
           results := [ {| function := Some "open_chrome";
                           output := VStr "Executed Successfully";
                           code := Some (generate_code "open_chrome") |};
                        no_match_entry ] |}.
Proof. vm_compute. reflexivity. Qed.

(** * Further properties of the code *)

(** ** The dispatcher: what becomes of a failing call *)

(** X1.  A keyword that names no parameter of the registered handler makes
    the dispatch answer "Error: Function <name> requires parameters.", also
    for a handler that requires none; the body does not run. *)
Theorem unexpected_keyword_outcome {World} (ALLOWED : gmap string (handler World))
    (name : string) (f : handler World) (kw : gmap string value) (k : string)
    (v : value) (w : World) :
  ALLOWED !! name = Some f →
  kw !! k = Some v →
  k ∉ (h_params f).*1 →
  execute_function ALLOWED name (Some kw) w
  = (Ret (VStr ("Error: Function " +:+ name +:+ " requires parameters.")), w).
Proof.
  intros Hf Hk Hnot.
  assert (invoke f (Some kw) w
          = (Raise (Exn TypeError "got an unexpected keyword argument"), w)) as Hcall.
  { unfold invoke, params_truthy.
    rewrite bool_decide_eq_false_2
      by (intros ->; by rewrite lookup_empty in Hk).
    cbn [negb]. unfold call, bind_arguments.
    rewrite bool_decide_eq_false_2; [done|].
    intros Hsub. apply Hnot. apply (elem_of_list_to_set (C := gset string)).
    apply Hsub. apply elem_of_dom. eauto. }
  by rewrite (execute_function_raises ALLOWED name f (Some kw) w _ w Hf Hcall).
Qed.

Lemma unexpected_keyword_outcome_witness :
  execute_function ALLOWED_FUNCTIONS "open_chrome" (Some {[ "url" := VStr "x" ]}) a_machine
  = (Ret (VStr "Error: Function open_chrome requires parameters."), a_machine).
Proof.
  apply (unexpected_keyword_outcome ALLOWED_FUNCTIONS "open_chrome" open_chrome
           {[ "url" := VStr "x" ]} "url" (VStr "x") a_machine).
  - reflexivity.
  - reflexivity.
  - apply not_elem_of_nil.
Defined.

(** X2.  A [TypeError] raised inside the body of a handler without
    parameters is reported as "Error: Function <name> requires parameters.",
    and what the body did before it failed stays done. *)
Theorem type_error_in_body_outcome {World} (ALLOWED : gmap string (handler World))
    (name : string) (f : handler World) (params : option (gmap string value))
    (w w' : World) (e : exn) :
  ALLOWED !! name = Some f →
  h_params f = [] →
  params_truthy params = false →
  h_body f ∅ w = (Raise e, w') →
  is_TypeError e = true →
  execute_function ALLOWED name params w
  = (Ret (VStr ("Error: Function " +:+ name +:+ " requires parameters.")), w').
Proof.
  intros Hf Hsig Hp Hbody He.
  assert (invoke f params w = (Raise e, w')) as Hcall.
  { rewrite (invoke_without_params f params w Hp).
    unfold call, bind_arguments. rewrite Hsig. simpl.
    by rewrite bool_decide_eq_true_2 by (rewrite dom_empty_L; set_solver). }
  rewrite (execute_function_raises ALLOWED name f params w e w' Hf Hcall).
  by rewrite He.
Qed.

Lemma type_error_in_body_outcome_witness :
  execute_function (<["type_error_inside" := type_error_inside]> ALLOWED_FUNCTIONS)
    "type_error_inside" None a_machine
  = (Ret (VStr "Error: Function type_error_inside requires parameters."),
     launch "os.system calc" a_machine).
Proof.
  apply (type_error_in_body_outcome _ "type_error_inside" type_error_inside None a_machine
           _ (Exn TypeError "can only concatenate str (not int) to str"));
    reflexivity.
Defined.

(** X3.  When the call to a registered handler raises an exception that is
    an [Exception] but no [TypeError], the outcome is the text of the
    exception, returned as a value, and what the handler did before it failed
    stays done. *)
Theorem exception_text_outcome {World} (ALLOWED : gmap string (handler World))
    (name : string) (f : handler World) (params : option (gmap string value))
    (w w' : World) (e : exn) :
  ALLOWED !! name = Some f →
  invoke f params w = (Raise e, w') →
  is_TypeError e = false →
  is_Exception e = true →
  execute_function ALLOWED name params w = (Ret (VStr (exn_msg e)), w').
Proof.
  intros Hf Hcall Hty Hex.
  rewrite (execute_function_raises ALLOWED name f params w e w' Hf Hcall).
  by rewrite Hty, Hex.
Qed.

Lemma exception_text_outcome_witness :
  execute_function (<["disk_failure" := disk_failure]> ALLOWED_FUNCTIONS)
    "disk_failure" None a_machine
  = (Ret (VStr "[Errno 5] Input/output error"), launch "os.system sync" a_machine).
Proof.
  apply (exception_text_outcome _ "disk_failure" disk_failure None a_machine _
           (Exn OSError "[Errno 5] Input/output error"));
    reflexivity.
Defined.

(** X4.  An exception outside [Exception] (such as [SystemExit]) raised by a
    registered handler is caught by neither [except] clause: it leaves
    [execute_function] as an exception. *)
Theorem base_exception_propagates {World} (ALLOWED : gmap string (handler World))
    (name : string) (f : handler World) (params : option (gmap string value))
    (w w' : World) (e : exn) :
  ALLOWED !! name = Some f →
  invoke f params w = (Raise e, w') →
  is_Exception e = false →
  execute_function ALLOWED name params w = (Raise e, w').
Proof.
  intros Hf Hcall Hex.
  rewrite (execute_function_raises ALLOWED name f params w e w' Hf Hcall).
  assert (is_TypeError e = false) as ->.
  { unfold is_TypeError, is_Exception in *. by destruct (exn_cls e). }
  by rewrite Hex.
Qed.

Lemma base_exception_propagates_witness :
  execute_function (<["quit_interpreter" := quit_interpreter]> ALLOWED_FUNCTIONS)
    "quit_interpreter" None a_machine
  = (Raise (Exn SystemExit "0"), a_machine).
Proof.
  apply (base_exception_propagates _ "quit_interpreter" quit_interpreter None a_machine);
    reflexivity.
Defined.

(** X5.  The outcome the dispatcher returns is a truthy value, with one
    exception: a registered handler that raised an exception (no
    [TypeError]) whose text is empty gives the empty text as outcome. *)
Theorem falsy_outcome_origin {World} (ALLOWED : gmap string (handler World))
    (name : string) (params : option (gmap string value)) (w w' : World) (out : value) :
  execute_function ALLOWED name params w = (Ret out, w') →
  truthy out = false →
  out = VStr EmptyString
  ∧ ∃ f e, ALLOWED !! name = Some f
           ∧ invoke f params w = (Raise e, w')
           ∧ is_TypeError e = false
           ∧ exn_msg e = EmptyString.
Proof.
  unfold execute_function, execute_function_body.
  destruct (ALLOWED !! name) as [f|] eqn:Hf.
  - destruct (invoke f params w) as [[r|e] w1] eqn:Hcall.
    + intros [= <- <-]. destruct (truthy r) eqn:Hr; intros Hfalsy; [congruence|discriminate Hfalsy].
    + destruct (is_TypeError e) eqn:Hty; [intros [= <- <-] Hfalsy; discriminate Hfalsy|].
      destruct (is_Exception e); [|done].
      intros [= <- <-] Hfalsy.
      assert (exn_msg e = EmptyString) as Hmsg.
      { simpl in Hfalsy. by destruct (exn_msg e). }
      rewrite Hmsg. split; [done|]. exists f, e. by rewrite Hmsg.
  - simpl. intros [= <- <-] Hfalsy. discriminate Hfalsy.
Qed.

Lemma falsy_outcome_origin_witness :
  VStr EmptyString = VStr EmptyString
  ∧ ∃ f e, <["silent_failure" := silent_failure]> ALLOWED_FUNCTIONS !! "silent_failure" = Some f
           ∧ invoke f None a_machine = (Raise e, a_machine)
           ∧ is_TypeError e = false
           ∧ exn_msg e = EmptyString.
Proof.
  apply (falsy_outcome_origin (<["silent_failure" := silent_failure]> ALLOWED_FUNCTIONS)
           "silent_failure" None a_machine a_machine (VStr EmptyString));
    reflexivity.
Defined.

(** X6.  Over a registry whose handlers raise nothing outside [Exception],
    the dispatcher never raises, whatever the name and the parameters: every
    failure becomes a returned outcome. *)
Theorem dispatcher_never_raises {World} (ALLOWED : gmap string (handler World))
    (name : string) (params : option (gmap string value)) (w : World) :
  handlers_catchable ALLOWED →
  is_Ret (execute_function ALLOWED name params w).1 = true.
Proof.
  intros Hc. by destruct (execute_function_total ALLOWED name params w Hc) as (out & w' & ->).
Qed.

Lemma dispatcher_never_raises_witness :
  is_Ret (execute_function ALLOWED_FUNCTIONS "list_files"
            (Some {[ "directory" := VInt 3; "depth" := VInt 1 ]}) a_machine).1 = true.
Proof.
  apply (dispatcher_never_raises ALLOWED_FUNCTIONS). exact ALLOWED_FUNCTIONS_catchable.
Defined.

(** ** The resolver on the rebuilt index *)

(** A distance above zero is not below zero. *)
Lemma SFltb_zero_asym (d : spec_float) :
  SFltb (S754_zero false) d = true → SFltb d (S754_zero false) = false.
Proof.
  unfold SFltb. destruct d as [s|s| |s m e]; simpl; try done; by destruct s.
Qed.

Section NearestFacts.
Context {Embedding : Type}.
Variable distance : Embedding → Embedding → spec_float.
Hypothesis distance_self : ∀ a, distance a a = S754_zero false.
Hypothesis distance_other : ∀ a b, a ≠ b → SFltb (S754_zero false) (distance a b) = true.

(** No entry is at a distance below zero from the query. *)
Lemma nearest_not_below_zero (c : collection Embedding) (q : Embedding) i d
    `{!∀ a b : Embedding, Decision (a = b)} :
  nearest distance c q = Some (i, d) → SFltb d (S754_zero false) = false.
Proof.
  intros Hn. apply nearest_elem_of in Hn as (e & _ & _ & <-).
  destruct (decide (q = entry_embedding e)) as [<-|Hne].
  - by rewrite distance_self.
  - by apply SFltb_zero_asym, distance_other.
Qed.

(** When the entries that carry the query as their embedding are those
    stored under [name], and there is one, the query returns [name] at
    distance zero. *)
Lemma nearest_exact (c : collection Embedding) (q : Embedding) (name : string)
    `{!∀ a b : Embedding, Decision (a = b)} :
  (∀ e, e ∈ c → (entry_id e = name ↔ entry_embedding e = q)) →
  name ∈ entry_id <$> c →
  nearest distance c q = Some (name, S754_zero false).
Proof.
  induction c as [|e c IH]; intros Hiff Hin.
  { by apply elem_of_nil in Hin. }
  cbn [nearest].
  destruct (decide (entry_id e = name)) as [Hid|Hid].
  - assert (entry_embedding e = q) as -> by (apply Hiff; [apply list_elem_of_here|done]).
    rewrite distance_self, Hid.
    destruct (nearest distance c q) as [[i' d']|] eqn:Hrest; [|done].
    by rewrite (nearest_not_below_zero c q i' d' Hrest).
  - assert (entry_embedding e ≠ q) as Hemb.
    { intros Heq. apply Hid. apply Hiff; [apply list_elem_of_here|done]. }
    rewrite IH.
    + rewrite distance_other; [done|congruence].
    + intros e' He'. apply Hiff. by apply elem_of_cons; right.
    + rewrite fmap_cons in Hin. apply elem_of_cons in Hin as [Heq|Hin]; [congruence|done].
Qed.

End NearestFacts.

(** The name the resolver answers is the id of an entry of the collection. *)
Lemma resolved_name_stored {Embedding} (encode : string → Embedding)
    (distance : Embedding → Embedding → spec_float) (c : collection Embedding)
    (prompt sid : string) (mem : gmap string (list string)) (name : string) :
  (retrieve_best_function encode distance c prompt sid mem).1 = Ret (Some name) →
  name ∈ entry_id <$> c.
Proof.
  unfold retrieve_best_function. cbn [fst].
  destruct (collection_query_cases distance c (encode prompt))
    as [[_ ->]|(_ & i & d & Hn & ->)]; unfold select_match; simpl; [done|].
  destruct (SFltb SIMILARITY_THRESHOLD d); [done|]. intros [= <-].
  apply nearest_elem_of in Hn as (e & He & <- & _). by apply list_elem_of_fmap_2.
Qed.

(** X7.  A distance that is not a number is not greater than the threshold:
    the resolver accepts the entry and answers its name. *)
Theorem nan_distance_accepted {Embedding} (encode : string → Embedding)
    (distance : Embedding → Embedding → spec_float) (c : collection Embedding)
    (prompt sid : string) (mem : gmap string (list string)) (name : string) :
  ids (collection_query distance c [encode prompt]) = [[name]] →
  distances (collection_query distance c [encode prompt]) = [[S754_nan]] →
  (retrieve_best_function encode distance c prompt sid mem).1 = Ret (Some name).
Proof.
  intros Hids Hd. unfold retrieve_best_function, select_match. cbn [fst].
  by rewrite Hids, Hd.
Qed.

Lemma nan_distance_accepted_witness :
  (retrieve_best_function (λ text, text) (λ _ _, S754_nan)
     [Entry "open_notepad" "open_notepad" None] "asdkjhasdkjh" "s1" ∅).1
  = Ret (Some "open_notepad").
Proof.
  apply (nan_distance_accepted _ _ _ _ _ _ "open_notepad"); reflexivity.
Defined.

(** X8.  On the index the startup rebuild builds, whatever the collection
    held before, every name the resolver answers is a key of the registry:
    a prompt never resolves to a name the dispatcher would refuse. *)
Theorem resolved_name_is_registered {Embedding World} (encode : string → Embedding)
    (distance : Embedding → Embedding → spec_float)
    (ALLOWED : gmap string (handler World)) (c : collection Embedding)
    (prompt sid : string) (mem : gmap string (list string)) (name : string) :
  (retrieve_best_function encode distance
     (clear_and_store_functions encode ALLOWED c).2 prompt sid mem).1
  = Ret (Some name) →
  is_Some (ALLOWED !! name).
Proof.
  intros Hres. apply resolved_name_stored in Hres.
  rewrite clear_and_store_functions_collection in Hres.
  rewrite entry_id_fresh in Hres. by apply elem_of_keys.
Qed.

Lemma resolved_name_is_registered_witness :
  is_Some (ALLOWED_FUNCTIONS !! "get_ram_usage").
Proof.
  apply (resolved_name_is_registered (λ text, text) discrete_distance ALLOWED_FUNCTIONS
           [Entry "format_disk" "format_disk" None] "get_ram_usage" "s1" ∅).
  reflexivity.
Defined.

(** X9.  Round trip of the rebuild and the resolver.  When the metric puts a
    vector at distance zero from itself and at a distance above zero from any
    other vector, and the embedding tells the registered names apart, the
    resolver answers every registered name for that very name as prompt. *)
Theorem resolve_own_name {Embedding World} `{!∀ a b : Embedding, Decision (a = b)}
    (encode : string → Embedding)
    (distance : Embedding → Embedding → spec_float)
    (ALLOWED : gmap string (handler World)) (c : collection Embedding)
    (name sid : string) (mem : gmap string (list string)) :
  (∀ a, distance a a = S754_zero false) →
  (∀ a b, a ≠ b → SFltb (S754_zero false) (distance a b) = true) →
  (∀ n m, is_Some (ALLOWED !! n) → is_Some (ALLOWED !! m) → encode n = encode m → n = m) →
  is_Some (ALLOWED !! name) →
  (retrieve_best_function encode distance
     (clear_and_store_functions encode ALLOWED c).2 name sid mem).1
  = Ret (Some name).
Proof.
  intros Hself Hother Hinj Hname.
  rewrite clear_and_store_functions_collection.
  unfold retrieve_best_function, collection_query. cbn [fst fmap list_fmap].
  rewrite (nearest_exact distance Hself Hother _ (encode name) name).
  - reflexivity.
  - intros e He. apply list_elem_of_fmap in He as (n & -> & Hn). cbn [entry_id entry_embedding fresh_entry].
    apply elem_of_keys in Hn. split; [by intros ->|]. intros Heq. by apply Hinj.
  - rewrite entry_id_fresh. by apply elem_of_keys.
Qed.

Lemma discrete_distance_other (a b : string) :
  a ≠ b → SFltb (S754_zero false) (discrete_distance a b) = true.
Proof.
  intros Hne. unfold discrete_distance.
  by rewrite (proj2 (String.eqb_neq a b) Hne).
Qed.

Lemma resolve_own_name_witness :
  (retrieve_best_function (λ text, text) discrete_distance name_index
     "list_files" "s1" ∅).1 = Ret (Some "list_files").
Proof.
  apply (resolve_own_name (λ text, text) discrete_distance ALLOWED_FUNCTIONS []
           "list_files" "s1" ∅).
  - intros a. unfold discrete_distance. by rewrite String.eqb_refl.
  - exact discrete_distance_other.
  - intros n m _ _ Heq. exact Heq.
  - by exists list_files.
Defined.

(** ** The session store over time *)

(** X10.  Recording only appends: for every session, the history before a
    submission is a prefix of the history after it, whichever session the
    submission went to. *)
Theorem history_append_only (sid sid' prompt : string) (mem : gmap string (list string)) :
  history sid' mem `prefix_of` history sid' (record sid prompt mem).
Proof.
  destruct (decide (sid' = sid)) as [->|Hne].
  - rewrite history_record. case_bool_decide; [done|]. by apply prefix_app_r.
  - by rewrite history_record_other.
Qed.

(** X11.  Recording creates the session when it is new and never removes
    one: the sessions after a submission are those before it and the one
    submitted to. *)
Theorem record_sessions (sid prompt : string) (mem : gmap string (list string)) :
  dom (record sid prompt mem) = {[ sid ]} ∪ dom mem.
Proof.
  assert (dom (setdefault sid mem) = {[ sid ]} ∪ dom mem) as Hdom.
  { unfold setdefault. destruct (mem !! sid) eqn:Hsid.
    - symmetry. apply subseteq_union_1_L, singleton_subseteq_l, elem_of_dom. eauto.
    - by rewrite dom_insert_L. }
  unfold record. case_bool_decide; [done|].
  by rewrite dom_insert_L, Hdom, (assoc_L (∪)), (idemp_L (∪)).
Qed.

Lemma history_foldl_prefix (sid : string) (prompts : list string)
    (mem : gmap string (list string)) :
  history sid mem `prefix_of` history sid (foldl (λ m p, record sid p m) mem prompts).
Proof.
  revert mem. induction prompts as [|p prompts IH]; intros mem; [done|].
  simpl. etrans; [apply (history_append_only sid sid p)|apply IH].
Qed.

Lemma elem_of_history_foldl (sid prompt : string) (prompts : list string)
    (mem : gmap string (list string)) :
  prompt ∈ prompts → prompt ∈ history sid (foldl (λ m p, record sid p m) mem prompts).
Proof.
  revert mem. induction prompts as [|p prompts IH]; intros mem Hin.
  { by apply elem_of_nil in Hin. }
  simpl. apply elem_of_cons in Hin as [->|Hin]; [|by apply IH].
  destruct (history_foldl_prefix sid prompts (record sid p mem)) as [k ->].
  apply elem_of_app. left. apply elem_of_history_record.
Qed.

(** ** The endpoints *)

Section EndpointFacts.
Context {Embedding World : Type}.
Variable encode : string → Embedding.
Variable distance : Embedding → Embedding → spec_float.
Variable ALLOWED : gmap string (handler World).
Variable c : collection Embedding.

(** The session store after the loop of the batch is the store after
    recording the prompts one by one. *)
Lemma execute_multiple_loop_memory prompts sid acc (st : state) :
  handlers_catchable ALLOWED →
  ∃ rs st', execute_multiple_loop encode distance ALLOWED c prompts sid acc st = (Ret rs, st')
            ∧ session_memory st' = foldl (λ m p, record sid p m) (session_memory st) prompts.
Proof.
  intros Hc. revert acc st. induction prompts as [|prompt prompts IH]; intros acc st.
  - by exists acc, st.
  - destruct (resolve_and_execute_entry encode distance ALLOWED c Hc prompt sid st)
      as (r & w' & Hstep & _).
    cbn [execute_multiple_loop]. rewrite Hstep.
    destruct (IH (acc ++ [r]) (State (record sid prompt (session_memory st)) w'))
      as (rs & st' & -> & Hmem).
    by exists rs, st'.
Qed.

End EndpointFacts.

(** X12.  When the resolver finds no match, [/execute] fails with the HTTP
    error 404 "No matching function found" and runs no handler, yet the
    prompt has been recorded in the history of the session. *)
Theorem execute_no_match {Embedding World} (encode : string → Embedding)
    (distance : Embedding → Embedding → spec_float)
    (ALLOWED : gmap string (handler World)) (c : collection Embedding)
    (request : FunctionRequest) (st : state) :
  (retrieve_best_function encode distance c (req_prompt request) (req_session_id request)
     (session_memory st)).1 = Ret None →
  ∃ st', execute encode distance ALLOWED c request st
         = (Raise (Exn (HTTPException 404) "No matching function found"), st')
         ∧ world st' = world st
         ∧ req_prompt request ∈ history (req_session_id request) (session_memory st').
Proof.
  intros Hres. unfold execute.
  rewrite (retrieve_resolved encode distance c) in *. cbn [fst] in Hres. rewrite Hres.
  eexists. split; [reflexivity|]. split; [done|]. apply elem_of_history_record.
Qed.

Lemma execute_no_match_witness :
  ∃ st', execute (λ text, text) discrete_distance ALLOWED_FUNCTIONS name_index
           {| req_prompt := "asdkjhasdkjh"; req_session_id := "s1"; req_params := None |}
           (State ∅ a_machine)
         = (Raise (Exn (HTTPException 404) "No matching function found"), st')
         ∧ world st' = a_machine
         ∧ "asdkjhasdkjh" ∈ history "s1" (session_memory st').
Proof.
  apply (execute_no_match (λ text, text) discrete_distance ALLOWED_FUNCTIONS name_index
           {| req_prompt := "asdkjhasdkjh"; req_session_id := "s1"; req_params := None |}
           (State ∅ a_machine)).
  reflexivity.
Defined.

(** X13.  Every answer of [/execute] names the action the resolver found
    for the prompt, carries the code generated for that name, and echoes a
    history of the session that holds the prompt just sent. *)
Theorem execute_response {Embedding World} (encode : string → Embedding)
    (distance : Embedding → Embedding → spec_float)
    (ALLOWED : gmap string (handler World)) (c : collection Embedding)
    (request : FunctionRequest) (st st' : state) (response : ExecuteResponse) :
  execute encode distance ALLOWED c request st = (Ret response, st') →
  (retrieve_best_function encode distance c (req_prompt request) (req_session_id request)
     (session_memory st)).1 = Ret (Some (resp_function response))
  ∧ resp_function response ≠ EmptyString
  ∧ resp_code response = generate_code (resp_function response)
  ∧ resp_session_history response = history (req_session_id request) (session_memory st')
  ∧ req_prompt request ∈ resp_session_history response.
Proof.
  unfold execute. rewrite (retrieve_resolved encode distance c). cbn [fst].
  destruct (resolved encode distance c (req_prompt request)) as [[[|a s]|]|e]; try done.
  destruct (execute_function ALLOWED (String a s) (req_params request) (world st))
    as [[out|e] w]; [|done].
  intros [= <- <-]. cbn. split; [done|]. split; [done|]. split; [done|]. split; [done|].
  apply elem_of_history_record.
Qed.

Lemma execute_response_witness :
  (retrieve_best_function (λ text, text) discrete_distance name_index "get_cpu_usage" "s1"
     ∅).1 = Ret (Some "get_cpu_usage")
  ∧ "get_cpu_usage" ≠ EmptyString
  ∧ generate_code "get_cpu_usage" = generate_code "get_cpu_usage"
  ∧ ["get_cpu_usage"] = history "s1" (record "s1" "get_cpu_usage" ∅)
  ∧ "get_cpu_usage" ∈ ["get_cpu_usage"].
Proof.
  apply (execute_response (λ text, text) discrete_distance ALLOWED_FUNCTIONS name_index
           {| req_prompt := "get_cpu_usage"; req_session_id := "s1"; req_params := None |}
           (State ∅ a_machine) (State (record "s1" "get_cpu_usage" ∅) a_machine)
           {| resp_function := "get_cpu_usage";
              resp_output := VStr "CPU Usage: 12%";
              resp_code := generate_code "get_cpu_usage";
              resp_session_history := ["get_cpu_usage"] |}).
  vm_compute. reflexivity.
Defined.

(** X14.  [/execute] without parameters and [/execute_multiple] with that
    one prompt agree: when [/execute] answers, the batch returns one entry
    with the same name, outcome and code, the same history, and leaves the
    same state. *)
Theorem batch_of_one_agrees {Embedding World} (encode : string → Embedding)
    (distance : Embedding → Embedding → spec_float)
    (ALLOWED : gmap string (handler World)) (c : collection Embedding)
    (prompt sid : string) (st st' : state) (response : ExecuteResponse) :
  execute encode distance ALLOWED c
    {| req_prompt := prompt; req_session_id := sid; req_params := None |} st
  = (Ret response, st') →
  execute_multiple encode distance ALLOWED c
    {| req_prompts := [prompt]; req_multi_session_id := sid |} st
  = (Ret {| session_history := resp_session_history response;
            results := [ {| function := Some (resp_function response);
                            output := resp_output response;
                            code := Some (resp_code response) |} ] |},
     st').
Proof.
  unfold execute, execute_multiple. cbn [execute_multiple_loop req_prompts
    req_multi_session_id req_prompt req_session_id req_params].
  unfold resolve_and_execute.
  destruct (retrieve_best_function encode distance c prompt sid (session_memory st))
    as [[[[|a s]|]|e] mem]; try done.
  destruct (execute_function ALLOWED (String a s) None (world st)) as [[out|e] w]; [|done].
  by intros [= <- <-].
Qed.

Lemma batch_of_one_agrees_witness :
  execute_multiple (λ text, text) discrete_distance ALLOWED_FUNCTIONS name_index
    {| req_prompts := ["get_cpu_usage"]; req_multi_session_id := "s1" |} (State ∅ a_machine)
  = (Ret {| session_history := ["get_cpu_usage"];
            results := [ {| function := Some "get_cpu_usage";
                            output := VStr "CPU Usage: 12%";
                            code := Some (generate_code "get_cpu_usage") |} ] |},
     State (record "s1" "get_cpu_usage" ∅) a_machine).
Proof.
  apply (batch_of_one_agrees (λ text, text) discrete_distance ALLOWED_FUNCTIONS name_index
           "get_cpu_usage" "s1" (State ∅ a_machine)
           (State (record "s1" "get_cpu_usage" ∅) a_machine)
           {| resp_function := "get_cpu_usage";
              resp_output := VStr "CPU Usage: 12%";
              resp_code := generate_code "get_cpu_usage";
              resp_session_history := ["get_cpu_usage"] |}).
  vm_compute. reflexivity.
Defined.

(** X15.  Over a registry whose handlers raise nothing outside [Exception],
    the batch endpoint records the prompts one by one: the history it returns
    extends the history the session had, and holds every prompt of the
    request, matched or not. *)
Theorem batch_records_prompts {Embedding World} (encode : string → Embedding)
    (distance : Embedding → Embedding → spec_float)
    (ALLOWED : gmap string (handler World)) (c : collection Embedding)
    (request : MultiFunctionRequest) (st : state) :
  handlers_catchable ALLOWED →
  ∃ response st',
    execute_multiple encode distance ALLOWED c request st = (Ret response, st')
    ∧ session_memory st'
      = foldl (λ m p, record (req_multi_session_id request) p m) (session_memory st)
          (req_prompts request)
    ∧ history (req_multi_session_id request) (session_memory st)
      `prefix_of` session_history response
    ∧ ∀ prompt, prompt ∈ req_prompts request → prompt ∈ session_history response.
Proof.
  intros Hc. unfold execute_multiple.
  destruct (execute_multiple_loop_memory encode distance ALLOWED c
              (req_prompts request) (req_multi_session_id request) [] st Hc)
    as (rs & st' & -> & Hmem).
  eexists _, st'. split; [reflexivity|]. split; [done|].
  cbn [session_history]. rewrite Hmem. split.
  - apply history_foldl_prefix.
  - intros prompt Hin. by apply elem_of_history_foldl.
Qed.

Lemma batch_records_prompts_witness :
  ∃ response st',
    execute_multiple (λ text, text) discrete_distance ALLOWED_FUNCTIONS name_index
      {| req_prompts := ["open_chrome"; "asdkjhasdkjh"]; req_multi_session_id := "s1" |}
      (State ∅ a_machine)
    = (Ret response, st')
    ∧ session_memory st'
      = foldl (λ m p, record "s1" p m) ∅ ["open_chrome"; "asdkjhasdkjh"]
    ∧ history "s1" ∅ `prefix_of` session_history response
    ∧ ∀ prompt, prompt ∈ ["open_chrome"; "asdkjhasdkjh"] →
                prompt ∈ session_history response.
Proof.
  exact (batch_records_prompts (λ text, text) discrete_distance ALLOWED_FUNCTIONS name_index
           {| req_prompts := ["open_chrome"; "asdkjhasdkjh"]; req_multi_session_id := "s1" |}
           (State ∅ a_machine) ALLOWED_FUNCTIONS_catchable).
Defined.

(** X16.  The batch endpoint dispatches without parameters: a prompt that
    resolves to a registered action with a required parameter always gets the
    entry whose output is "Error: Function <name> requires parameters.", and
    the handler does not run. *)
Theorem batch_passes_no_parameters {Embedding World} (encode : string → Embedding)
    (distance : Embedding → Embedding → spec_float)
    (ALLOWED : gmap string (handler World)) (c : collection Embedding)
    (prompt sid : string) (st : state) (a : Ascii.ascii) (s : string) (f : handler World) :
  (retrieve_best_function encode distance c prompt sid (session_memory st)).1
  = Ret (Some (String a s)) →
  ALLOWED !! String a s = Some f →
  requires_parameter f →
  resolve_and_execute encode distance ALLOWED c prompt sid st
  = (Ret {| function := Some (String a s);
            output := VStr ("Error: Function " +:+ String a s +:+ " requires parameters.");
            code := Some (generate_code (String a s)) |},
     State (record sid prompt (session_memory st)) (world st)).
Proof.
  intros Hres Hf Hreq. unfold resolve_and_execute.
  rewrite (retrieve_resolved encode distance c) in *. cbn [fst] in Hres. rewrite Hres.
  destruct (call_without_arguments f (world st) Hreq) as (e & Hcall & He).
  rewrite (execute_function_raises ALLOWED (String a s) f None (world st) e (world st) Hf Hcall).
  by rewrite He.
Qed.

Lemma batch_passes_no_parameters_witness :
  resolve_and_execute (λ text, text) discrete_distance EXTENDED_FUNCTIONS extended_index
    "remove_file" "s1" (State ∅ a_machine)
  = (Ret {| function := Some "remove_file";
            output := VStr "Error: Function remove_file requires parameters.";
            code := Some (generate_code "remove_file") |},
     State (record "s1" "remove_file" ∅) a_machine).
Proof.
  refine (batch_passes_no_parameters (λ text, text) discrete_distance EXTENDED_FUNCTIONS
            extended_index "remove_file" "s1" (State ∅ a_machine) (Ascii.ascii_of_nat 114) "emove_file"
            remove_file _ _ _).
  - vm_compute. reflexivity.
  - reflexivity.
  - exists "path". apply list_elem_of_here.
Defined.

(** ** The registry and the rebuild *)

Lemma lookup_get_available_functions {World} (module : gmap string (member World))
    (name : string) (f : handler World) :
  get_available_functions module !! name = Some f ↔ module !! name = Some (MFunction f).
Proof.
  unfold get_available_functions. rewrite lookup_omap.
  destruct (module !! name) as [[g|]|]; simpl; split; congruence.
Qed.

(** X17.  A name of the action module that is not bound to a function (an
    imported module, a constant, or no member at all) is no action: the
    startup rebuild stores no entry under it and the dispatcher refuses it,
    running nothing. *)
Theorem non_function_member_refused {Embedding World} (encode : string → Embedding)
    (module : gmap string (member World)) (c : collection Embedding)
    (name : string) (params : option (gmap string value)) (w : World) :
  (∀ f, module !! name ≠ Some (MFunction f)) →
  (name ∉ entry_id <$> (clear_and_store_functions encode (get_available_functions module) c).2)
  ∧ execute_function (get_available_functions module) name params w
    = (Ret (VStr "Unauthorized function access"), w).
Proof.
  intros Hnot.
  assert (get_available_functions module !! name = None) as Hnone.
  { destruct (get_available_functions module !! name) as [f|] eqn:Hf; [|done].
    apply lookup_get_available_functions in Hf. by destruct (Hnot f). }
  split.
  - rewrite clear_and_store_functions_collection, entry_id_fresh.
    rewrite elem_of_keys, Hnone. by intros [? ?].
  - unfold execute_function, execute_function_body. by rewrite Hnone.
Qed.

Lemma non_function_member_refused_witness :
  ("os" ∉ entry_id <$> name_index)
  ∧ execute_function ALLOWED_FUNCTIONS "os" (Some {[ "command" := VStr "calc" ]}) a_machine
    = (Ret (VStr "Unauthorized function access"), a_machine).
Proof.
  apply (non_function_member_refused (λ text, text) automation_functions [] "os"
           (Some {[ "command" := VStr "calc" ]}) a_machine).
  intros f. vm_compute. discriminate.
Defined.

(** X18.  The startup rebuild forgets the past: its result does not depend
    on what the collection held, and rebuilding a rebuilt index changes
    nothing. *)
Theorem rebuild_forgets_past {Embedding World} (encode : string → Embedding)
    (ALLOWED : gmap string (handler World)) (c1 c2 : collection Embedding) :
  clear_and_store_functions encode ALLOWED c1 = clear_and_store_functions encode ALLOWED c2
  ∧ clear_and_store_functions encode ALLOWED (clear_and_store_functions encode ALLOWED c1).2
    = clear_and_store_functions encode ALLOWED c1.
Proof. by rewrite !clear_and_store_functions_run. Qed.

(** ** The standalone registry script *)

(** X19.  As it stands, the script deletes every stored entry and then stops
    on [NameError], for the name [automation] is bound by none of its
    imports: whatever the collection held, it is left empty. *)
Theorem registry_script_stops {Embedding World} (encode : string → Embedding)
    (module : gmap string (member World)) (c : collection Embedding) :
  (function_registry encode (registry_globals module) c).1
  = Raise (Exn NameError "name 'automation' is not defined")
  ∧ (function_registry encode (registry_globals module) c).2 = [].
Proof. by rewrite function_registry_name_error. Qed.

(** X20.  Were [automation] bound to the action module, the script would
    end with one entry per function of the module, and no other entry; the
    text embedded for a function, also kept as its metadata, is its docstring,
    or "No description available" when the docstring is missing or empty:
    never its name. *)
Theorem registry_script_descriptions {Embedding World} (encode : string → Embedding)
    (globals : gmap string (pyobj World)) (module : gmap string (member World))
    (c : collection Embedding) :
  globals !! "automation" = Some (OModule module) →
  ∃ c', function_registry encode globals c = (Ret (), c')
        ∧ NoDup (entry_id <$> c')
        ∧ (∀ name f, module !! name = Some (MFunction f) →
             ∃ e, e ∈ c' ∧ entry_id e = name
                  ∧ entry_embedding e = encode (description_of f)
                  ∧ entry_metadata e = Some (description_of f))
        ∧ (∀ e, e ∈ c' → ∃ f, module !! entry_id e = Some (MFunction f)).
Proof.
  intros Hbound. eexists. split; [by apply function_registry_descriptions|].
  set (items := map_to_list (description_of <$> get_available_functions module)).
  assert (entry_id <$> (described_entry encode <$> items) = items.*1) as Hids.
  { by rewrite <- list_fmap_compose. }
  split; [rewrite Hids; apply NoDup_fst_map_to_list|]. split.
  - intros name f Hf. exists (described_entry encode (name, description_of f)).
    split; [|done]. apply list_elem_of_fmap_2. apply elem_of_map_to_list.
    rewrite lookup_fmap. apply lookup_get_available_functions in Hf. by rewrite Hf.
  - intros e He. apply list_elem_of_fmap in He as ([name d] & -> & Hin).
    apply elem_of_map_to_list in Hin. rewrite lookup_fmap in Hin. cbn [entry_id described_entry fst].
    destruct (get_available_functions module !! name) as [f|] eqn:Hf; [|done].
    exists f. by apply lookup_get_available_functions.
Qed.

Lemma registry_script_descriptions_witness :
  ∃ c', function_registry (λ text, text)
          (<["automation" := OModule automation_functions]>
             (registry_globals automation_functions))
          [Entry "format_disk" "format_disk" None]
        = (Ret (), c')
        ∧ NoDup (entry_id <$> c')
        ∧ (∀ name f, automation_functions !! name = Some (MFunction f) →
             ∃ e, e ∈ c' ∧ entry_id e = name
                  ∧ entry_embedding e = description_of f
                  ∧ entry_metadata e = Some (description_of f))
        ∧ (∀ e, e ∈ c' → ∃ f, automation_functions !! entry_id e = Some (MFunction f)).
Proof.
  apply (registry_script_descriptions (λ text, text)
           (<["automation" := OModule automation_functions]>
              (registry_globals automation_functions))
           automation_functions [Entry "format_disk" "format_disk" None]).
  reflexivity.
Defined.

(** ** The generated code *)

Lemma length_append (a b : string) :
  String.length (a +:+ b) = String.length a + String.length b.
Proof. induction a as [|ch a IH]; simpl; [done|]. by rewrite IH. Qed.

Lemma append_same_length_inj (a b x y : string) :
  String.length a = String.length b → a +:+ x = b +:+ y → a = b.
Proof.
  revert b. induction a as [|ch a IH]; intros [|ch' b]; simpl; try done.
  intros [= Hlen] [= -> Heq]. f_equal. by apply IH.
Qed.

(** X21.  Two different function names never get the same generated code. *)
Theorem generate_code_distinct (a b : string) :
  a ≠ b → generate_code a ≠ generate_code b.
Proof.
  intros Hne Heq. apply Hne.
  assert (String.length a = String.length b) as Hlen.
  { apply (f_equal String.length) in Heq. unfold generate_code, nl, dq in Heq.
    rewrite !length_append in Heq. simpl in Heq. lia. }
  unfold generate_code in Heq.
  apply (inj (String.app nl)) in Heq.
  apply (inj (String.app "from automation import ")) in Heq.
  by apply append_same_length_inj in Heq.
Qed.

Lemma generate_code_distinct_witness :
  generate_code "open_chrome" ≠ generate_code "open_notepad".
Proof. apply generate_code_distinct. discriminate. Defined.

(** ** The endpoints keep the histories duplicate free *)

Section InvariantFacts.
Context {Embedding World : Type}.
Variable encode : string → Embedding.
Variable distance : Embedding → Embedding → spec_float.
Variable ALLOWED : gmap string (handler World).
Variable c : collection Embedding.

(** Whatever its outcome, one turn of the loop records the prompt. *)
Lemma resolve_and_execute_memory prompt sid (st : state) :
  session_memory (resolve_and_execute encode distance ALLOWED c prompt sid st).2
  = record sid prompt (session_memory st).
Proof.
  unfold resolve_and_execute. rewrite (retrieve_resolved encode distance c).
  destruct (resolved encode distance c prompt) as [[[|a s]|]|e]; try done.
  by destruct (execute_function ALLOWED (String a s) None (world st)) as [[out|e] w].
Qed.

Lemma execute_memory (request : FunctionRequest) (st : state) :
  session_memory (execute encode distance ALLOWED c request st).2
  = record (req_session_id request) (req_prompt request) (session_memory st).
Proof.
  unfold execute. rewrite (retrieve_resolved encode distance c).
  destruct (resolved encode distance c (req_prompt request)) as [[[|a s]|]|e]; try done.
  by destruct (execute_function ALLOWED (String a s) (req_params request) (world st))
    as [[out|e] w].
Qed.

Lemma execute_multiple_loop_nodup prompts sid acc (st : state) :
  histories_nodup (session_memory st) →
  histories_nodup
    (session_memory (execute_multiple_loop encode distance ALLOWED c prompts sid acc st).2).
Proof.
  revert acc st. induction prompts as [|prompt prompts IH]; intros acc st Hwf; [done|].
  cbn [execute_multiple_loop].
  pose proof (resolve_and_execute_memory prompt sid st) as Hmem.
  destruct (resolve_and_execute encode distance ALLOWED c prompt sid st) as [[r|e] st1].
  - apply IH. cbn [snd] in Hmem. rewrite Hmem. by apply histories_nodup_record.
  - cbn [snd] in *. rewrite Hmem. by apply histories_nodup_record.
Qed.

End InvariantFacts.

(** X22.  Both endpoints keep every history of the session store duplicate
    free, whether they answer or fail; the history the batch returns holds a
    prompt once even when the request repeats it. *)
Theorem endpoints_keep_histories_nodup {Embedding World} (encode : string → Embedding)
    (distance : Embedding → Embedding → spec_float)
    (ALLOWED : gmap string (handler World)) (c : collection Embedding)
    (request : FunctionRequest) (batch : MultiFunctionRequest) (st : state) :
  histories_nodup (session_memory st) →
  histories_nodup (session_memory (execute encode distance ALLOWED c request st).2)
  ∧ histories_nodup (session_memory (execute_multiple encode distance ALLOWED c batch st).2)
  ∧ ∀ response, (execute_multiple encode distance ALLOWED c batch st).1 = Ret response →
                NoDup (session_history response).
Proof.
  intros Hwf. split; [|split].
  - rewrite execute_memory. by apply histories_nodup_record.
  - pose proof (execute_multiple_loop_nodup encode distance ALLOWED c
                  (req_prompts batch) (req_multi_session_id batch) [] st Hwf) as Hloop.
    unfold execute_multiple.
    by destruct (execute_multiple_loop encode distance ALLOWED c (req_prompts batch)
                   (req_multi_session_id batch) [] st) as [[rs|e] st'].
  - pose proof (execute_multiple_loop_nodup encode distance ALLOWED c
                  (req_prompts batch) (req_multi_session_id batch) [] st Hwf) as Hloop.
    unfold execute_multiple.
    destruct (execute_multiple_loop encode distance ALLOWED c (req_prompts batch)
                (req_multi_session_id batch) [] st) as [[rs|e] st']; [|done].
    intros response [= <-]. cbn [session_history]. by apply history_nodup.
Qed.

Lemma endpoints_keep_histories_nodup_witness :
  (execute_multiple (λ text, text) discrete_distance ALLOWED_FUNCTIONS name_index
     {| req_prompts := ["open_chrome"; "open_chrome"]; req_multi_session_id := "s1" |}
     (State ∅ a_machine)).1
  = Ret {| session_history := ["open_chrome"];
           results := [ {| function := Some "open_chrome";
                           output := VStr "Executed Successfully";
                           code := Some (generate_code "open_chrome") |};
                        {| function := Some "open_chrome";
                           output := VStr "Executed Successfully";
                           code := Some (generate_code "open_chrome") |} ] |}
  ∧ NoDup ["open_chrome"].
Proof.
  assert ((execute_multiple (λ text, text) discrete_distance ALLOWED_FUNCTIONS name_index
             {| req_prompts := ["open_chrome"; "open_chrome"]; req_multi_session_id := "s1" |}
             (State ∅ a_machine)).1
          = Ret {| session_history := ["open_chrome"];
                   results := [ {| function := Some "open_chrome";
                                   output := VStr "Executed Successfully";
                                   code := Some (generate_code "open_chrome") |};
                                {| function := Some "open_chrome";
                                   output := VStr "Executed Successfully";
                                   code := Some (generate_code "open_chrome") |} ] |})
    as Hrun by (vm_compute; reflexivity).
  split; [exact Hrun|].
  destruct (endpoints_keep_histories_nodup (λ text, text) discrete_distance
              ALLOWED_FUNCTIONS name_index
              {| req_prompt := "open_chrome"; req_session_id := "s1"; req_params := None |}
              {| req_prompts := ["open_chrome"; "open_chrome"];
                 req_multi_session_id := "s1" |}
              (State ∅ a_machine) histories_nodup_empty) as (_ & _ & Hnodup).
  exact (Hnodup _ Hrun).
Defined.
